(** * koa-session-redis: a model of [index.js] and its session lifecycle

    The middleware resolves a session identifier from a cookie, loads the
    record from a key-value store, lets the downstream handler work on the
    session object and then decides whether to delete, save or ignore it.

    Layout of the development:
    - JavaScript data: JSON values, objects as ordered property lists,
      exceptions;
    - the platform primitives the source calls ([JSON.parse],
      [JSON.stringify], [Buffer] base64), as an interface [Platform];
    - the source, function by function: [encode], [decode], [Session],
      [toJSON], [changed], [length], [populated], [save], the accessor pair
      and the middleware generator;
    - [Node], an executable instance of the platform interface;
    - the properties.

    Conventions.  A JavaScript string is a [string] holding its UTF-8 bytes,
    so that the UTF-8 step of [Buffer] is the identity.  Numbers are the
    integers.  Thrown values are error objects (hence truthy).  Property
    names that would shadow a method of [Session.prototype] ([toJSON],
    [inspect], [changed], [save]) and the [__proto__] accessor are not
    given their special meaning; the two getter-only accessors of the
    prototype ([length], [populated]) are. *)

From Stdlib Require Import String Ascii List ZArith NArith Bool Lia.
From Stdlib Require Import Sorted.
From Stdlib Require Import Decimal DecimalString DecimalN DecimalPos DecimalFacts.
Import ListNotations.
Local Open Scope string_scope.
Local Open Scope list_scope.

(* ================================================================= *)
(** * JavaScript data *)

(** JSON data, as [JSON.parse] produces it. An object lists its own
    properties in enumeration order. *)
Unset Elimination Schemes.
Inductive value : Type :=
| VNull
| VBool (b : bool)
| VNum (z : Z)
| VStr (s : string)
| VArr (l : list value)
| VObj (o : list (string * value)).
Set Elimination Schemes.

(** The induction principle with the hypotheses for the nested lists. *)
Definition value_induction (P : value -> Prop)
    (Hnull : P VNull)
    (Hbool : forall b, P (VBool b))
    (Hnum : forall z, P (VNum z))
    (Hstr : forall s, P (VStr s))
    (Harr : forall l, Forall P l -> P (VArr l))
    (Hobj : forall o, Forall (fun kv => P (snd kv)) o -> P (VObj o)) :
  forall v, P v :=
  fix go (v : value) : P v :=
    match v with
    | VNull => Hnull
    | VBool b => Hbool b
    | VNum z => Hnum z
    | VStr s => Hstr s
    | VArr l =>
        Harr l ((fix all (l : list value) : Forall P l :=
                   match l with
                   | [] => Forall_nil _
                   | x :: l' => Forall_cons x (go x) (all l')
                   end) l)
    | VObj o =>
        Hobj o ((fix all (o : list (string * value)) :
                   Forall (fun kv => P (snd kv)) o :=
                   match o with
                   | [] => Forall_nil _
                   | kv :: o' => Forall_cons kv (go (snd kv)) (all o')
                   end) o)
    end.

(** What a property of a session object can hold: JSON data, or the
    reference to the request context that [Session] stores in [_ctx]. *)
Inductive jsval : Type :=
| Host
| Data (v : value).

(** An object: its own enumerable properties, in the order [Object.keys]
    and [for-in] list them. *)
Definition object : Type := list (string * jsval).

(** Error objects. *)
Inductive error_class : Type := SyntaxError | TypeError | RangeError | Error.

Record exn : Type := mk_exn { exn_class : error_class; exn_message : string }.

Definition instanceof_SyntaxError (e : exn) : bool :=
  match exn_class e with SyntaxError => true | _ => false end.

(** Truthiness ([if (x)], [!x], [x || y]). *)
Definition truthy (v : value) : bool :=
  match v with
  | VNull => false
  | VBool b => b
  | VNum z => negb (z =? 0)%Z
  | VStr s => negb (s =? "")
  | VArr _ | VObj _ => true
  end.

Definition truthy_js (v : jsval) : bool :=
  match v with Host => true | Data d => truthy d end.

(** A variable that holds a string, [null] or [undefined]. *)
Definition truthy_str (s : option string) : bool :=
  match s with Some s => negb (s =? "") | None => false end.

(** ** Property order

    Own property keys enumerate with the array indices first, in ascending
    numeric order, then the other strings in creation order. An array index
    is the canonical decimal form of an integer below [2^32 - 1]. *)
Definition array_index (k : string) : option N :=
  match NilEmpty.uint_of_string k with
  | Some d =>
      if uint_beq (unorm d) d && (N.of_uint d <? 4294967295)%N
      then Some (N.of_uint d) else None
  | None => None
  end.

Definition index_key (n : N) : string := NilEmpty.string_of_uint (N.to_uint n).

Section Props.
Context {A : Type}.

Definition Object_keys (o : list (string * A)) : list string := map fst o.

Fixpoint prop_get (k : string) (o : list (string * A)) : option A :=
  match o with
  | [] => None
  | (k', v) :: o' => if k' =? k then Some v else prop_get k o'
  end.

Definition has_own (k : string) (o : list (string * A)) : bool :=
  existsb (fun kv => fst kv =? k) o.

Fixpoint prop_replace (k : string) (v : A) (o : list (string * A)) :=
  match o with
  | [] => []
  | (k', v') :: o' =>
      if k' =? k then (k', v) :: o' else (k', v') :: prop_replace k v o'
  end.

Fixpoint insert_index (n : N) (k : string) (v : A) (o : list (string * A)) :=
  match o with
  | [] => [(k, v)]
  | (k', v') :: o' =>
      match array_index k' with
      | Some m =>
          if (m <? n)%N then (k', v') :: insert_index n k v o'
          else (k, v) :: o
      | None => (k, v) :: o
      end
  end.

(** [o[k] = v] on a data property: an existing property keeps its place,
    a new one goes where the enumeration order puts it. *)
Definition prop_set (k : string) (v : A) (o : list (string * A)) :=
  if has_own k o then prop_replace k v o
  else match array_index k with
       | Some n => insert_index n k v o
       | None => o ++ [(k, v)]
       end.

(** [delete o[k]]. *)
Definition prop_delete (k : string) (o : list (string * A)) :=
  filter (fun kv => negb (fst kv =? k)) o.

(** The object built by defining the listed properties one after the other. *)
Definition define_all (props : list (string * A)) (o : list (string * A)) :=
  fold_left (fun acc kv => prop_set (fst kv) (snd kv) acc) props o.
End Props.

(** The properties a [for (k in obj)] loop visits, with their values. *)
Fixpoint indexed {A : Type} (i : N) (l : list A) : list (string * A) :=
  match l with
  | [] => []
  | x :: l' => (index_key i, x) :: indexed (N.succ i) l'
  end.

Definition for_in (obj : value) : list (string * value) :=
  match obj with
  | VObj o => o
  | VArr l => indexed 0 l
  | VStr s => indexed 0 (map (fun c => VStr (String c "")) (list_ascii_of_string s))
  | VNull | VBool _ | VNum _ => []
  end.

(* ================================================================= *)
(** * Platform primitives *)

(** [JSON_parse] and [JSON_stringify] are the globals of that name;
    [base64_decode s] is [new Buffer(s, 'base64').toString('utf8')] and
    [base64_encode s] is [new Buffer(s).toString('base64')]. *)
Class Platform : Type := {
  JSON_parse : string -> value + exn;
  JSON_stringify : value -> string;
  base64_decode : string -> string;
  base64_encode : string -> string
}.

(* ================================================================= *)
(** * The source: the serializer and the session model *)

Section Source.
Context {platform : Platform}.

(** ** [decode], [encode] (lines 256-272) *)

Definition decode (string : string) : value + exn :=
  let body := base64_decode string in
  JSON_parse body.

Definition encode (body : value) : string :=
  let body := JSON_stringify body in
  base64_encode body.

(** ** [Session] (lines 164-168) *)

(** [Session.prototype] defines [length] and [populated] with a getter
    and no setter; the file is strict, so assigning to them throws. *)
Definition getter_only (k : string) : bool :=
  (k =? "length") || (k =? "populated").

Definition assign (k : string) (v : jsval) (this : object) : object + exn :=
  if getter_only k
  then inr (mk_exn TypeError "Cannot set property which has only a getter")
  else inl (prop_set k v this).

Fixpoint assign_all (props : list (string * value)) (this : object)
  : object + exn :=
  match props with
  | [] => inl this
  | (k, v) :: rest =>
      match assign k (Data v) this with
      | inl this' => assign_all rest this'
      | inr e => inr e
      end
  end.

(** [new Session(ctx, obj)]; [None] stands for a missing argument. *)
Definition Session (obj : option value) : object + exn :=
  let this := prop_set "_ctx" Host [] in
  match obj with
  | Some o =>
      if negb (truthy o) then inl (prop_set "isNew" (Data (VBool true)) this)
      else assign_all (for_in o) this
  | None => inl (prop_set "isNew" (Data (VBool true)) this)
  end.

(** ** [toJSON] (lines 177-189) *)

Definition first_is_underscore (key : string) : bool :=
  match key with
  | String c _ => (c =? "_")%char
  | EmptyString => false
  end.

(** The callback of [forEach]: [obj] so far, and the next own property. *)
Definition toJSON_each (obj : object) (kv : string * jsval) : object :=
  let key := fst kv in
  if key =? "isNew" then obj
  else if first_is_underscore key then obj
  else prop_set key (snd kv) obj.

Definition toJSON (this : object) : object :=
  fold_left toJSON_each this [].

Definition inspect (this : object) : object := toJSON this.

(** [JSON.stringify] of a session serialises what [toJSON] returns. Only
    data is JSON; the context reference is stored under [_ctx], which
    [toJSON] has left out. *)
Definition data_props (o : object) : list (string * value) :=
  flat_map (fun kv => match snd kv with
                      | Data d => [(fst kv, d)]
                      | Host => []
                      end) o.

Definition encode_session (this : object) : string :=
  encode (VObj (data_props (toJSON this))).

(** ** [changed] (lines 200-204) *)

Definition strict_eq (a : string) (b : option string) : bool :=
  match b with Some b => a =? b | None => false end.

Definition changed (this : object) (prev : option string) : bool * object :=
  if negb (truthy_str prev) then (true, this)
  else
    let _json := encode_session this in
    let this' := prop_set "_json" (Data (VStr _json)) this in
    (negb (strict_eq _json prev), this').

(** ** [length], [populated] (lines 214-227) *)

Definition length (this : object) : nat :=
  List.length (Object_keys (toJSON this)).

Definition populated (this : object) : bool :=
  negb (Nat.eqb (length this) 0).

End Source.

(* ================================================================= *)
(** * The request context and the collaborators

    The cookie jar, the store client and [uid] are outside the source. A
    request is run against a [world], which fixes what they answer, and
    yields the list of the calls made to them. *)

Record cookie_options : Type := {
  overwrite : bool;
  httpOnly : bool;
  signed : bool
}.

(** What [module.exports(opts)] fixes once: the cookie name and the
    cookie options. *)
Record config : Type := {
  key : string;
  cookieOption : cookie_options
}.

(** The properties the middleware puts on the context, "to pass to
    Session()" (lines 82-84). *)
Record context : Type := {
  ctx_cookieOption : cookie_options;
  ctx_sessionKey : string;
  ctx_sessionId : option string
}.

(** Calls to the collaborators, in the order they are made. *)
Inductive event : Type :=
| CookiesGet (name : string) (opts : cookie_options)
| ClientGet (sid : string)
| Uid (len : nat)
| CookiesSet (name : string) (val : option string) (opts : cookie_options)
| ClientDel (sid : string)
| ClientSet (sid : string) (json : jsval).

(** What the collaborators answer during one request: the cookie read,
    the reply of the store to each call (a value or a failure) and the
    token [uid] produces. *)
Record world : Type := {
  w_cookie : option string;
  w_get : string -> option string + exn;
  w_uid : string;
  w_del : string -> option exn;
  w_set : string -> jsval -> option exn
}.

(** Computations that call collaborators and may throw. *)
Definition M (A : Type) : Type := list event -> list event * (A + exn).

Definition ret {A} (a : A) : M A := fun t => (t, inl a).

Definition throw {A} (e : exn) : M A := fun t => (t, inr e).

Definition bind {A B} (m : M A) (f : A -> M B) : M B :=
  fun t => match m t with
           | (t', inl a) => f a t'
           | (t', inr e) => (t', inr e)
           end.

Definition try_catch {A} (m : M A) (handler : exn -> M A) : M A :=
  fun t => match m t with
           | (t', inl a) => (t', inl a)
           | (t', inr e) => handler e t'
           end.

Definition call (ev : event) : M unit := fun t => (t ++ [ev], inl tt).

Definition lift {A} (r : A + exn) : M A :=
  match r with inl a => ret a | inr e => throw e end.

Definition fails (r : option exn) : M unit :=
  match r with None => ret tt | Some e => throw e end.

Declare Scope js_scope.
Delimit Scope js_scope with js.
Notation "x <- m ;; k" := (bind m (fun x => k))
  (at level 61, m at next level, right associativity) : js_scope.
Notation "m ;; k" := (bind m (fun _ => k))
  (at level 61, right associativity) : js_scope.
Local Open Scope js_scope.

(* ================================================================= *)
(** * The source: the middleware *)

Section Middleware.
Context {platform : Platform}.
Variable cfg : config.
Variable w : world.

Definition cookies_get (name : string) (opts : cookie_options)
  : M (option string) :=
  call (CookiesGet name opts) ;; ret (w_cookie w).

Definition cookies_set (name : string) (val : option string)
    (opts : cookie_options) : M unit :=
  call (CookiesSet name val opts).

Definition client_get (sid : string) : M (option string) :=
  call (ClientGet sid) ;; lift (w_get w sid).

Definition client_del (sid : string) : M unit :=
  call (ClientDel sid) ;; fails (w_del w sid).

Definition client_set (sid : string) (json : jsval) : M unit :=
  call (ClientSet sid json) ;; fails (w_set w sid json).

Definition uid (len : nat) : M string :=
  call (Uid len) ;; ret (w_uid w).

(** ** [save] (lines 236-246)

    [ctx] is what [this._ctx] refers to: the request context as long as
    the property still holds the reference [Session] put there; with
    anything else in it [ctx.cookies] is undefined and the call throws. *)
Definition save (ctx : context) (this : object) : M jsval :=
  let json := match prop_get "_json" this with
              | Some j => if truthy_js j then j
                          else Data (VStr (encode_session this))
              | None => Data (VStr (encode_session this))
              end in
  match prop_get "_ctx" this with
  | Some Host =>
      let sid := ctx_sessionId ctx in
      let opts := ctx_cookieOption ctx in
      let key := ctx_sessionKey ctx in
      cookies_set key sid opts ;;
      ret json
  | _ => throw (mk_exn TypeError "Cannot read property of undefined")
  end.

(** ** The accessor pair (lines 118-129) *)

(** The variable [sess] of the generator. *)
Inductive sess_var : Type :=
| SUndefined
| SFalse
| SObj (s : object).

Inductive got : Type :=
| GotUndefined
| GotNull
| GotSession (s : object).

Definition session_getter (sess : sess_var) : got :=
  match sess with
  | SObj s => GotSession s
  | SFalse => GotNull
  | SUndefined => GotUndefined
  end.

Definition typeof_object (val : value) : bool :=
  match val with VNull | VArr _ | VObj _ => true | _ => false end.

Definition session_setter (val : value) : sess_var + exn :=
  match val with
  | VNull => inl SFalse
  | _ =>
      if typeof_object val then
        match Session (Some val) with
        | inl s => inl (SObj s)
        | inr e => inr e
        end
      else inr (mk_exn Error
                  "this.session can only be set as null or an object.")
  end.

(** ** Downstream code

    What the handler does with the session: it reads or assigns
    [this.session], sets or deletes a property of the session object it
    got, raises, or does something else. The properties the middleware put
    on the context are left alone. A property is assigned as in strict
    code, like the ones [Session] assigns. *)
Inductive action : Type :=
| Skip
| GetSession
| SetSession (val : value)
| SetField (k : string) (v : value)
| DeleteField (k : string)
| Throw (e : exn).

Definition step (a : action) (sess : sess_var) : sess_var + exn :=
  match a with
  | Skip => inl sess
  | GetSession => inl sess
  | SetSession val => session_setter val
  | SetField k v =>
      match session_getter sess with
      | GotSession s =>
          match assign k (Data v) s with
          | inl s' => inl (SObj s')
          | inr e => inr e
          end
      | _ => inr (mk_exn TypeError "Cannot set property of null")
      end
  | DeleteField k =>
      match session_getter sess with
      | GotSession s => inl (SObj (prop_delete k s))
      | _ => inr (mk_exn TypeError "Cannot convert null to object")
      end
  | Throw e => inr e
  end.

(** [try { yield *next; } catch (_err) { err = _err; }]: the session
    variable afterwards, and [err]. *)
Fixpoint downstream (next : list action) (sess : sess_var)
  : sess_var * option exn :=
  match next with
  | [] => (sess, None)
  | a :: rest =>
      match step a sess with
      | inl sess' => downstream rest sess'
      | inr e => (sess, Some e)
      end
  end.

(** ** The middleware (lines 78-153) *)

(** The generator's variables after the load phase. *)
Record loaded : Type := {
  l_this : context;
  l_sid : string;
  l_json : option string;
  l_sess : sess_var
}.

(** The string in a variable that has just been tested truthy. *)
Definition the (s : option string) : string :=
  match s with Some s => s | None => "" end.

Definition set_sessionId (this : context) (sid : option string) : context :=
  {| ctx_cookieOption := ctx_cookieOption this;
     ctx_sessionKey := ctx_sessionKey this;
     ctx_sessionId := sid |}.

Definition load : M loaded :=
  let this := {| ctx_cookieOption := cookieOption cfg;
                 ctx_sessionKey := key cfg;
                 ctx_sessionId := None |} in
  sid <- cookies_get (key cfg) (cookieOption cfg) ;;
  json <- (if truthy_str sid
           then try_catch (client_get (the sid)) (fun e => ret None)
           else ret None) ;;
  if truthy_str json then
    let this := set_sessionId this sid in
    sess <- try_catch
              (obj <- lift (decode (the json)) ;; lift (Session (Some obj)))
              (fun err =>
                 if negb (instanceof_SyntaxError err) then throw err
                 else lift (Session None)) ;;
    ret {| l_this := this; l_sid := the sid; l_json := json;
           l_sess := SObj sess |}
  else
    sid <- uid 24 ;;
    let this := set_sessionId this (Some sid) in
    sess <- lift (Session None) ;;
    ret {| l_this := this; l_sid := sid; l_json := json;
           l_sess := SObj sess |}.

Definition finalize (this : context) (sid : string) (json : option string)
    (sess : sess_var) : M unit :=
  match sess with
  | SUndefined => ret tt
  | SFalse =>
      cookies_set (key cfg) (Some "") (cookieOption cfg) ;;
      client_del sid
  | SObj s =>
      if negb (truthy_str json) && Nat.eqb (length s) 0 then ret tt
      else
        let (c, s') := changed s json in
        if c then
          json' <- save this s' ;;
          client_set sid json'
        else ret tt
  end.

Definition middleware (next : list action) : M unit :=
  l <- load ;;
  let (sess, err) := downstream next (l_sess l) in
  finalize (l_this l) (l_sid l) (l_json l) sess ;;
  match err with
  | Some e => throw e
  | None => ret tt
  end.
End Middleware.

(* ================================================================= *)
(** * The source: [module.exports] (lines 21-50)

    The option objects are property lists, as the caller passes them; the
    call assigns the defaults into them. *)

Record options : Type := {
  opts_key : option string;
  opts_cookie : option (list (string * value));
  opts_store : option (list (string * value))
}.

(** [x || {}] for an option object. *)
Definition or_empty (o : option (list (string * value)))
  : list (string * value) :=
  match o with Some o => o | None => [] end.

(** [(cookieOption.name === false) ? false : (cookieOption.name = true)] *)
Definition force_unless_false (name : string)
    (cookieOption : list (string * value)) : list (string * value) :=
  match prop_get name cookieOption with
  | Some (VBool false) => cookieOption
  | _ => prop_set name (VBool true) cookieOption
  end.

(** [redisOption.name || (redisOption.name = dflt)] *)
Definition default_unless_truthy (name : string) (dflt : value)
    (redisOption : list (string * value)) : list (string * value) :=
  match prop_get name redisOption with
  | Some v => if truthy v then redisOption else prop_set name dflt redisOption
  | None => prop_set name dflt redisOption
  end.

(** What the call leaves behind: the variables the middleware closes over,
    the option objects as the call has updated them, and the arguments of
    [redis.createClient]. *)
Record setup : Type := {
  set_key : string;
  set_cookieOption : list (string * value);
  set_redisOption : list (string * value);
  set_createClient : option value * option value * option value
}.

Definition exports (opts : option options) : setup :=
  let key := match opts with
             | Some o => if truthy_str (opts_key o) then the (opts_key o)
                         else "koa:sess"
             | None => "koa:sess"
             end in
  let cookieOption := match opts with
                      | Some o => or_empty (opts_cookie o)
                      | None => []
                      end in
  let cookieOption := force_unless_false "overwrite" cookieOption in
  let cookieOption := force_unless_false "httpOnly" cookieOption in
  let cookieOption := force_unless_false "signed" cookieOption in
  let redisOption := match opts with
                     | Some o => or_empty (opts_store o)
                     | None => []
                     end in
  let redisOption := default_unless_truthy "port" (VNum 6379) redisOption in
  let redisOption :=
    default_unless_truthy "host" (VStr "127.0.0.1") redisOption in
  let redisOption := default_unless_truthy "options" (VObj []) redisOption in
  let redisOption := default_unless_truthy "db" (VNum 0) redisOption in
  let redisOption := default_unless_truthy "ttl" VNull redisOption in
  {| set_key := key;
     set_cookieOption := cookieOption;
     set_redisOption := redisOption;
     set_createClient := (prop_get "port" redisOption,
                          prop_get "host" redisOption,
                          prop_get "options" redisOption) |}.

(* ================================================================= *)
(** * Node: the platform primitives, executable

    [JSON.stringify] writes the compact text: no white space, the
    properties in enumeration order, the two-character escapes for the
    quote, the backslash and the five named control characters, [\u00XX]
    for the other characters below U+0020.  [JSON.parse] reads the JSON
    grammar with white space between tokens, defines the properties of an
    object one after the other (a repeated key keeps its place and takes
    the last value) and throws a [SyntaxError] on anything else.  Number
    literals are the integers: one with a fraction or an exponent is not
    accepted.  A [\uXXXX] escape yields the UTF-8 bytes of that code unit.

    The base64 decoder is the lenient one of [Buffer]: it skips the
    characters outside the alphabet, takes [-] and [_] for [+] and [/],
    stops at the first [=] and never throws. *)
Module Node.

Definition chars (s : string) : list ascii := list_ascii_of_string s.

Definition dquote : ascii := "034"%char.
Definition backslash : ascii := "092"%char.

(** ** JSON.stringify *)

Definition hex_digit (n : N) : ascii :=
  nth (N.to_nat n) (chars "0123456789abcdef") "0"%char.

Definition escape (c : ascii) : list ascii :=
  let n := N_of_ascii c in
  if (c =? dquote)%char then [backslash; dquote]
  else if (c =? backslash)%char then [backslash; backslash]
  else if (n =? 8)%N then [backslash; "b"%char]
  else if (n =? 12)%N then [backslash; "f"%char]
  else if (n =? 10)%N then [backslash; "n"%char]
  else if (n =? 13)%N then [backslash; "r"%char]
  else if (n =? 9)%N then [backslash; "t"%char]
  else if (n <? 32)%N then
    [backslash; "u"%char; "0"%char; "0"%char;
     hex_digit (n / 16); hex_digit (n mod 16)]
  else [c].

Definition quote (s : string) : list ascii :=
  dquote :: flat_map escape (chars s) ++ [dquote].

Fixpoint uint_chars (d : uint) : list ascii :=
  match d with
  | Nil => []
  | D0 d => "0"%char :: uint_chars d
  | D1 d => "1"%char :: uint_chars d
  | D2 d => "2"%char :: uint_chars d
  | D3 d => "3"%char :: uint_chars d
  | D4 d => "4"%char :: uint_chars d
  | D5 d => "5"%char :: uint_chars d
  | D6 d => "6"%char :: uint_chars d
  | D7 d => "7"%char :: uint_chars d
  | D8 d => "8"%char :: uint_chars d
  | D9 d => "9"%char :: uint_chars d
  end.

Definition number (z : Z) : list ascii :=
  match z with
  | Z0 => ["0"%char]
  | Zpos p => uint_chars (N.to_uint (Npos p))
  | Zneg p => "-"%char :: uint_chars (N.to_uint (Npos p))
  end.

(** The texts of the items, separated by commas. *)
Definition join {A : Type} (f : A -> list ascii) : list A -> list ascii :=
  fix go (l : list A) : list ascii :=
    match l with
    | [] => []
    | x :: l' =>
        f x ++ match l' with
               | [] => []
               | _ :: _ => ","%char :: go l'
               end
    end.

Fixpoint stringify (v : value) : list ascii :=
  match v with
  | VNull => chars "null"
  | VBool true => chars "true"
  | VBool false => chars "false"
  | VNum z => number z
  | VStr s => quote s
  | VArr l => "["%char :: join stringify l ++ ["]"%char]
  | VObj o =>
      "{"%char ::
      join (fun kv => quote (fst kv) ++ ":"%char :: stringify (snd kv)) o ++
      ["}"%char]
  end.

(** ** JSON.parse *)

Definition is_ws (c : ascii) : bool :=
  let n := N_of_ascii c in
  (n =? 32)%N || (n =? 9)%N || (n =? 10)%N || (n =? 13)%N.

Fixpoint skip_ws (s : list ascii) : list ascii :=
  match s with
  | c :: r => if is_ws c then skip_ws r else s
  | [] => []
  end.

Definition digit_of (c : ascii) : option (uint -> uint) :=
  match c with
  | "0"%char => Some D0
  | "1"%char => Some D1
  | "2"%char => Some D2
  | "3"%char => Some D3
  | "4"%char => Some D4
  | "5"%char => Some D5
  | "6"%char => Some D6
  | "7"%char => Some D7
  | "8"%char => Some D8
  | "9"%char => Some D9
  | _ => None
  end.

Fixpoint read_digits (s : list ascii) : uint * list ascii :=
  match s with
  | c :: r =>
      match digit_of c with
      | Some d => let (u, r') := read_digits r in (d u, r')
      | None => (Nil, s)
      end
  | [] => (Nil, [])
  end.

(** What may follow an integer literal: anything but a further digit, a
    fraction or an exponent. *)
Definition ends_number (s : list ascii) : bool :=
  match s with
  | c :: _ =>
      match digit_of c with
      | Some _ => false
      | None => negb ((c =? ".") || (c =? "e") || (c =? "E"))%char
      end
  | [] => true
  end.

Definition parse_number (s : list ascii) : option (Z * list ascii) :=
  let (negative, s1) :=
    match s with
    | c :: r => if (c =? "-")%char then (true, r) else (false, s)
    | [] => (false, s)
    end in
  let (d, r) := read_digits s1 in
  if uint_beq (unorm d) d && ends_number r then
    let n := Z.of_N (N.of_uint d) in
    Some (if negative then Z.opp n else n, r)
  else None.

Definition hex_val (c : ascii) : option N :=
  let n := N_of_ascii c in
  if (48 <=? n)%N && (n <=? 57)%N then Some (n - 48)%N
  else if (97 <=? n)%N && (n <=? 102)%N then Some (n - 87)%N
  else if (65 <=? n)%N && (n <=? 70)%N then Some (n - 55)%N
  else None.

Definition hex4 (a b c d : ascii) : option N :=
  match hex_val a, hex_val b, hex_val c, hex_val d with
  | Some a, Some b, Some c, Some d =>
      Some (((a * 16 + b) * 16 + c) * 16 + d)%N
  | _, _, _, _ => None
  end.

Definition utf8 (cp : N) : list ascii :=
  if (cp <? 128)%N then [ascii_of_N cp]
  else if (cp <? 2048)%N then
    [ascii_of_N (192 + cp / 64); ascii_of_N (128 + cp mod 64)]
  else
    [ascii_of_N (224 + cp / 4096); ascii_of_N (128 + (cp / 64) mod 64);
     ascii_of_N (128 + cp mod 64)].

Definition unescape (c : ascii) : option ascii :=
  if (c =? dquote)%char then Some dquote
  else if (c =? backslash)%char then Some backslash
  else if (c =? "/")%char then Some "/"%char
  else if (c =? "b")%char then Some "008"%char
  else if (c =? "f")%char then Some "012"%char
  else if (c =? "n")%char then Some "010"%char
  else if (c =? "r")%char then Some "013"%char
  else if (c =? "t")%char then Some "009"%char
  else None.

(** The characters of a string literal, after its opening quote. *)
Fixpoint parse_string (s : list ascii) : option (list ascii * list ascii) :=
  match s with
  | [] => None
  | c :: r =>
      if (c =? dquote)%char then Some ([], r)
      else if (c =? backslash)%char then
        match r with
        | [] => None
        | e :: r1 =>
            if (e =? "u")%char then
              match r1 with
              | h1 :: h2 :: h3 :: h4 :: r2 =>
                  match hex4 h1 h2 h3 h4 with
                  | Some cp =>
                      match parse_string r2 with
                      | Some (t, rest) => Some (utf8 cp ++ t, rest)
                      | None => None
                      end
                  | None => None
                  end
              | _ => None
              end
            else
              match unescape e with
              | Some c' =>
                  match parse_string r1 with
                  | Some (t, rest) => Some (c' :: t, rest)
                  | None => None
                  end
              | None => None
              end
        end
      else if (N_of_ascii c <? 32)%N then None
      else
        match parse_string r with
        | Some (t, rest) => Some (c :: t, rest)
        | None => None
        end
  end.

Fixpoint expect (word s : list ascii) : option (list ascii) :=
  match word with
  | [] => Some s
  | c :: word' =>
      match s with
      | c' :: s' => if (c =? c')%char then expect word' s' else None
      | [] => None
      end
  end.

Fixpoint parse_value (fuel : nat) (s : list ascii)
  : option (value * list ascii) :=
  match fuel with
  | O => None
  | S fuel =>
      match skip_ws s with
      | [] => None
      | c :: r =>
          if (c =? "{")%char then
            match skip_ws r with
            | c' :: r' =>
                if (c' =? "}")%char then Some (VObj [], r')
                else
                  match parse_members fuel r with
                  | Some (ms, rest) => Some (VObj (define_all ms []), rest)
                  | None => None
                  end
            | [] => None
            end
          else if (c =? "[")%char then
            match skip_ws r with
            | c' :: r' =>
                if (c' =? "]")%char then Some (VArr [], r')
                else
                  match parse_elements fuel r with
                  | Some (vs, rest) => Some (VArr vs, rest)
                  | None => None
                  end
            | [] => None
            end
          else if (c =? dquote)%char then
            match parse_string r with
            | Some (t, rest) => Some (VStr (string_of_list_ascii t), rest)
            | None => None
            end
          else if (c =? "n")%char then
            match expect (chars "ull") r with
            | Some rest => Some (VNull, rest)
            | None => None
            end
          else if (c =? "t")%char then
            match expect (chars "rue") r with
            | Some rest => Some (VBool true, rest)
            | None => None
            end
          else if (c =? "f")%char then
            match expect (chars "alse") r with
            | Some rest => Some (VBool false, rest)
            | None => None
            end
          else
            match parse_number (c :: r) with
            | Some (z, rest) => Some (VNum z, rest)
            | None => None
            end
      end
  end
with parse_elements (fuel : nat) (s : list ascii)
  : option (list value * list ascii) :=
  match fuel with
  | O => None
  | S fuel =>
      match parse_value fuel s with
      | Some (v, r) =>
          match skip_ws r with
          | c :: r' =>
              if (c =? ",")%char then
                match parse_elements fuel r' with
                | Some (vs, rest) => Some (v :: vs, rest)
                | None => None
                end
              else if (c =? "]")%char then Some ([v], r')
              else None
          | [] => None
          end
      | None => None
      end
  end
with parse_members (fuel : nat) (s : list ascii)
  : option (list (string * value) * list ascii) :=
  match fuel with
  | O => None
  | S fuel =>
      match skip_ws s with
      | q :: r =>
          if (q =? dquote)%char then
            match parse_string r with
            | Some (k, r1) =>
                match skip_ws r1 with
                | colon :: r2 =>
                    if (colon =? ":")%char then
                      match parse_value fuel r2 with
                      | Some (v, r3) =>
                          match skip_ws r3 with
                          | c :: r4 =>
                              if (c =? ",")%char then
                                match parse_members fuel r4 with
                                | Some (ms, rest) =>
                                    Some ((string_of_list_ascii k, v) :: ms,
                                          rest)
                                | None => None
                                end
                              else if (c =? "}")%char then
                                Some ([(string_of_list_ascii k, v)], r4)
                              else None
                          | [] => None
                          end
                      | None => None
                      end
                    else None
                | [] => None
                end
            | None => None
            end
          else None
      | [] => None
      end
  end.

Definition syntax_error : exn := mk_exn SyntaxError "Unexpected token".

Definition parse (text : string) : value + exn :=
  let s := chars text in
  match parse_value (S (List.length s)) s with
  | Some (v, rest) =>
      match skip_ws rest with
      | [] => inl v
      | _ :: _ => inr syntax_error
      end
  | None => inr syntax_error
  end.

(** The fuel that reading back the text of [v] takes at most. *)
Fixpoint size (v : value) : nat :=
  match v with
  | VArr l => S (fold_right (fun x n => S (size x + n)) 0 l)
  | VObj o => S (fold_right (fun kv n => S (size (snd kv) + n)) 0 o)
  | VNull | VBool _ | VNum _ | VStr _ => 1
  end.

Definition starts_number (s : list ascii) : bool :=
  match s with
  | c :: _ =>
      (c =? "-")%char || match digit_of c with Some _ => true | None => false end
  | [] => false
  end.

(** ** Buffer, base64 *)

Definition alphabet : list ascii :=
  chars "ABCDEFGHIJKLMNOPQRSTUVWXYZabcdefghijklmnopqrstuvwxyz0123456789+/".

Definition base64_char (n : N) : ascii := nth (N.to_nat n) alphabet "A"%char.

Definition unbase64 (c : ascii) : option N :=
  let n := N_of_ascii c in
  if (65 <=? n)%N && (n <=? 90)%N then Some (n - 65)%N
  else if (97 <=? n)%N && (n <=? 122)%N then Some (n - 71)%N
  else if (48 <=? n)%N && (n <=? 57)%N then Some (n + 4)%N
  else if (n =? 43)%N || (n =? 45)%N then Some 62%N
  else if (n =? 47)%N || (n =? 95)%N then Some 63%N
  else None.

Fixpoint to_base64 (bytes : list ascii) : list ascii :=
  match bytes with
  | [] => []
  | [a] =>
      let a := N_of_ascii a in
      [base64_char (a / 4); base64_char ((a mod 4) * 16); "="%char; "="%char]
  | [a; b] =>
      let a := N_of_ascii a in
      let b := N_of_ascii b in
      [base64_char (a / 4); base64_char ((a mod 4) * 16 + b / 16);
       base64_char ((b mod 16) * 4); "="%char]
  | a :: b :: c :: rest =>
      let a := N_of_ascii a in
      let b := N_of_ascii b in
      let c := N_of_ascii c in
      base64_char (a / 4) :: base64_char ((a mod 4) * 16 + b / 16) ::
      base64_char ((b mod 16) * 4 + c / 64) :: base64_char (c mod 64) ::
      to_base64 rest
  end.

Fixpoint sextets (s : list ascii) : list N :=
  match s with
  | [] => []
  | c :: r =>
      if (c =? "=")%char then []
      else match unbase64 c with
           | Some n => n :: sextets r
           | None => sextets r
           end
  end.

Fixpoint from_sextets (l : list N) : list ascii :=
  match l with
  | a :: b :: c :: d :: rest =>
      ascii_of_N (a * 4 + b / 16) ::
      ascii_of_N ((b mod 16) * 16 + c / 4) ::
      ascii_of_N ((c mod 4) * 64 + d) :: from_sextets rest
  | [a; b; c] =>
      [ascii_of_N (a * 4 + b / 16); ascii_of_N ((b mod 16) * 16 + c / 4)]
  | [a; b] => [ascii_of_N (a * 4 + b / 16)]
  | _ => []
  end.

Definition from_base64 (s : list ascii) : list ascii :=
  from_sextets (sextets s).

#[export] Instance platform : Platform := {|
  JSON_parse := parse;
  JSON_stringify := fun v => string_of_list_ascii (stringify v);
  base64_decode := fun s => string_of_list_ascii (from_base64 (chars s));
  base64_encode := fun s => string_of_list_ascii (to_base64 (chars s))
|}.
End Node.

(* ================================================================= *)
(** * Vocabulary of the properties *)

(** ** JSON-representable data

    A key can be appended to an object when it is new and the enumeration
    order puts it last: an array index after smaller indices only, any
    other string anywhere. An object is in enumeration order when each of
    its properties could be appended to the ones before it. *)
Definition appendable {A : Type} (k : string) (o : list (string * A)) : bool :=
  negb (has_own k o) &&
  match array_index k with
  | Some n =>
      forallb (fun kv => match array_index (fst kv) with
                         | Some m => (m <? n)%N
                         | None => false
                         end) o
  | None => true
  end.

Fixpoint enumerated_from {A : Type} (acc o : list (string * A)) : bool :=
  match o with
  | [] => true
  | kv :: o' => appendable (fst kv) acc && enumerated_from (acc ++ [kv]) o'
  end.

Definition enumeration_order {A : Type} (o : list (string * A)) : bool :=
  enumerated_from [] o.

(** The data [JSON.stringify] writes and [JSON.parse] reads back: integers
    in the range where a double is exact, objects as the engine holds them. *)
Fixpoint representable (v : value) : bool :=
  match v with
  | VNull | VBool _ | VStr _ => true
  | VNum z => (Z.abs z <=? 9007199254740991)%Z
  | VArr l => forallb representable l
  | VObj o =>
      enumeration_order o && forallb (fun kv => representable (snd kv)) o
  end.

(** ** Calls that write *)

Definition is_write (ev : event) : bool :=
  match ev with
  | CookiesSet _ _ _ | ClientDel _ | ClientSet _ _ => true
  | CookiesGet _ _ | ClientGet _ | Uid _ => false
  end.

Definition writes (t : list event) : list event := filter is_write t.

(** A call uses the identifier [sid]: a store call is keyed by it, a cookie
    write sets it or clears the cookie. *)
Definition uses_sid (sid : string) (ev : event) : Prop :=
  match ev with
  | ClientGet s | ClientDel s | ClientSet s _ => s = sid
  | CookiesSet _ val _ => val = Some sid \/ val = Some ""
  | CookiesGet _ _ | Uid _ => True
  end.

(** The keys [toJSON] leaves out. *)
Definition transient (k : string) : bool :=
  (k =? "isNew") || first_is_underscore k.

(** The world in which the store has no record for any identifier. *)
Definition store_absent (w : world) : world :=
  {| w_cookie := w_cookie w;
     w_get := fun _ => inl None;
     w_uid := w_uid w;
     w_del := w_del w;
     w_set := w_set w |}.

(** The session [new Session(ctx)] builds. *)
Definition fresh_session : object :=
  [("_ctx", Host); ("isNew", Data (VBool true))].

(** The try block of the load phase, [new Session(this, decode(json))]. *)
Definition revive {platform : Platform} (json : string) : object + exn :=
  match decode json with
  | inl obj => Session (Some obj)
  | inr e => inr e
  end.

(** ** Sample requests *)

(** The configuration [module.exports()] builds without options: the
    default cookie name, and [overwrite], [httpOnly] and [signed] forced
    to true (lines 26-34). *)
Definition default_options : cookie_options :=
  {| overwrite := true; httpOnly := true; signed := true |}.

Definition default_config : config :=
  {| key := "koa:sess"; cookieOption := default_options |}.

(** A request with the given cookie, against a store that answers every
    read with [record] and accepts every write. *)
Definition request (cookie : option string) (record : option string + exn)
  : world :=
  {| w_cookie := cookie;
     w_get := fun _ => record;
     w_uid := "p3Zk0sVq8LxY2mNc7TbR4hWd";
     w_del := fun _ => None;
     w_set := fun _ _ => None |}.

Definition boom : exn := mk_exn Error "boom".

Definition store_down : exn := mk_exn Error "Redis connection gone".

(** ** Objects as the engine holds them

    [key_before k1 k2]: a property named [k1] enumerates before one named
    [k2] that was created later. An object is well formed when its keys
    are distinct and listed in enumeration order. *)
Definition key_before (k1 k2 : string) : Prop :=
  match array_index k1, array_index k2 with
  | Some a, Some b => (a < b)%N
  | Some _, None => True
  | None, Some _ => False
  | None, None => k1 <> k2
  end.

Definition well_formed {A : Type} (o : list (string * A)) : Prop :=
  StronglySorted key_before (Object_keys o).

(** The properties [toJSON] keeps. *)
Definition user_field (kv : string * jsval) : bool := negb (transient (fst kv)).

(** The names a field can have without meeting [toJSON]'s exclusions or a
    getter of the prototype. *)
Definition ordinary (k : string) : bool :=
  negb (transient k) && negb (getter_only k).

Definition as_data (kv : string * value) : string * jsval :=
  (fst kv, Data (snd kv)).

(** Handler steps that leave the session alone. *)
Definition reads_only (a : action) : bool :=
  match a with Skip | GetSession => true | _ => false end.

(** ** Options *)

(** The flag a cookie option object holds under [name]. *)
Definition flag (name : string) (cookieOption : list (string * value)) : bool :=
  match prop_get name cookieOption with
  | Some (VBool false) => false
  | _ => true
  end.

(** The configuration the middleware runs with. *)
Definition config_of (s : setup) : config :=
  {| key := set_key s;
     cookieOption := {| overwrite := flag "overwrite" (set_cookieOption s);
                        httpOnly := flag "httpOnly" (set_cookieOption s);
                        signed := flag "signed" (set_cookieOption s) |} |}.

Definition given_cookie (opts : option options) : list (string * value) :=
  match opts with Some o => or_empty (opts_cookie o) | None => [] end.

Definition given_store (opts : option options) : list (string * value) :=
  match opts with Some o => or_empty (opts_store o) | None => [] end.

Definition is_flag (k : string) : bool :=
  (k =? "overwrite") || (k =? "httpOnly") || (k =? "signed").

(** The value [x || dflt] picks. *)
Definition or_value (x : option value) (dflt : value) : value :=
  match x with Some v => if truthy v then v else dflt | None => dflt end.

(* ================================================================= *)
(** * Proof automation *)

(** Runs the collaborator calls of a computation. *)
Ltac run_M :=
  cbv [load finalize middleware save bind cookies_get cookies_set client_get
       client_del client_set uid try_catch call ret lift fails throw
       set_sessionId fst snd the truthy_str
       ctx_cookieOption ctx_sessionKey ctx_sessionId l_this l_sid l_json l_sess].

Ltac same_trace := rewrite <- ?List.app_assoc, ?List.app_nil_r; reflexivity.

(** Bounds on bytes and sextets, by the equations of division. *)
Ltac div_mod_lia :=
  repeat match goal with
    | |- context [N_of_ascii ?a] =>
        let H := fresh "H" in
        pose proof (N_ascii_bounded a) as H;
        generalize dependent (N_of_ascii a); intros
    end;
  zify; Z.to_euclidean_division_equations; lia.

(* ================================================================= *)
(** * Properties of property lists *)

Section PropFacts.
Context {A : Type}.
Implicit Types (o : list (string * A)) (k : string) (v : A).

Lemma keys_prop_replace k v o :
  Object_keys (prop_replace k v o) = Object_keys o.
Proof.
  induction o as [|[k' v'] o IH]; simpl; [reflexivity|].
  destruct (k' =? k); simpl; [reflexivity|].
  now rewrite IH.
Qed.

Lemma keys_insert_index n k v o k' :
  In k' (Object_keys (insert_index n k v o)) -> k' = k \/ In k' (Object_keys o).
Proof.
  induction o as [|[k1 v1] o IH]; simpl.
  - intros [H|[]]; auto.
  - destruct (array_index k1) as [m|].
    + destruct (m <? n)%N; simpl.
      * intros [H|H]; auto. destruct (IH H); auto.
      * intros [H|H]; auto.
    + simpl. intros [H|H]; auto.
Qed.

Lemma keys_prop_set k v o k' :
  In k' (Object_keys (prop_set k v o)) -> k' = k \/ In k' (Object_keys o).
Proof.
  unfold prop_set. destruct (has_own k o).
  - rewrite keys_prop_replace. auto.
  - destruct (array_index k) as [n|].
    + apply keys_insert_index.
    + unfold Object_keys. rewrite map_app, in_app_iff. simpl.
      intros [H|[H|[]]]; auto.
Qed.

Lemma has_own_false_replace k v o :
  has_own k o = false -> prop_replace k v o = o.
Proof.
  unfold has_own. induction o as [|[k' v'] o IH]; simpl; [reflexivity|].
  destruct (k' =? k); simpl; [discriminate|].
  intros H. now rewrite IH.
Qed.

Lemma prop_get_replace k v o :
  has_own k o = true -> prop_get k (prop_replace k v o) = Some v.
Proof.
  unfold has_own. induction o as [|[k' v'] o IH]; simpl; [discriminate|].
  destruct (k' =? k) eqn:E; simpl; rewrite E; auto.
Qed.

Lemma prop_get_app_new k v o :
  has_own k o = false -> prop_get k (o ++ [(k, v)]) = Some v.
Proof.
  unfold has_own. induction o as [|[k' v'] o IH]; simpl.
  - now rewrite String.eqb_refl.
  - destruct (k' =? k); simpl; [discriminate|]. auto.
Qed.

Lemma prop_get_replace_other k k' v o :
  k' <> k -> prop_get k' (prop_replace k v o) = prop_get k' o.
Proof.
  intros Hne. induction o as [|[k1 v1] o IH]; simpl; [reflexivity|].
  destruct (k1 =? k) eqn:E; simpl.
  - apply String.eqb_eq in E. subst k1.
    destruct (k =? k') eqn:E'; [|reflexivity].
    apply String.eqb_eq in E'. congruence.
  - destruct (k1 =? k'); auto.
Qed.

Lemma prop_get_app_other k k' v o :
  k' <> k -> prop_get k' (o ++ [(k, v)]) = prop_get k' o.
Proof.
  intros Hne. induction o as [|[k1 v1] o IH]; simpl.
  - destruct (k =? k') eqn:E; [|reflexivity].
    apply String.eqb_eq in E. congruence.
  - destruct (k1 =? k'); auto.
Qed.
End PropFacts.

(* ================================================================= *)
(** * What [toJSON] leaves out *)

Lemma toJSON_each_transient (obj : object) k (v : jsval) :
  transient k = true -> toJSON_each obj (k, v) = obj.
Proof.
  unfold transient, toJSON_each. cbn [fst snd].
  destruct (k =? "isNew"); [reflexivity|]. cbn. now intros ->.
Qed.

Lemma toJSON_fold_keys (this acc : object) :
  Forall (fun k => transient k = false) (Object_keys acc) ->
  Forall (fun k => transient k = false)
         (Object_keys (fold_left toJSON_each this acc)).
Proof.
  revert acc.
  induction this as [|[k v] this IH]; simpl; intros acc Hacc; [exact Hacc|].
  apply IH. unfold toJSON_each; simpl.
  destruct (k =? "isNew") eqn:E1; [exact Hacc|].
  destruct (first_is_underscore k) eqn:E2; [exact Hacc|].
  apply Forall_forall. intros k' Hin.
  apply keys_prop_set in Hin. destruct Hin as [->|Hin].
  - unfold transient. now rewrite E1, E2.
  - rewrite Forall_forall in Hacc. auto.
Qed.

Lemma toJSON_keys (this : object) :
  Forall (fun k => transient k = false) (Object_keys (toJSON this)).
Proof. apply toJSON_fold_keys. constructor. Qed.

Lemma data_props_keys (o : object) k :
  In k (Object_keys (data_props o)) -> In k (Object_keys o).
Proof.
  induction o as [|[k' [|d]] o IH]; simpl; auto.
  intros [H|H]; auto.
Qed.


(* ================================================================= *)
(** * Change detection and the cached encoding *)

Lemma fold_replace_transient k (v : jsval) (this acc : object) :
  transient k = true ->
  fold_left toJSON_each (prop_replace k v this) acc =
  fold_left toJSON_each this acc.
Proof.
  intros Hk. revert acc.
  induction this as [|[k' v'] this IH]; cbn [prop_replace]; intros acc;
    [reflexivity|].
  destruct (k' =? k) eqn:E; cbn [fold_left].
  - apply String.eqb_eq in E. subst k'.
    now rewrite !toJSON_each_transient.
  - apply IH.
Qed.

Lemma toJSON_set_json (v : jsval) (this : object) :
  toJSON (prop_set "_json" v this) = toJSON this.
Proof.
  unfold toJSON, prop_set.
  destruct (has_own "_json" this).
  - now apply fold_replace_transient.
  - change (array_index "_json") with (@None N). cbv iota.
    rewrite fold_left_app. reflexivity.
Qed.

Lemma prop_get_set_json (v : jsval) (this : object) :
  prop_get "_json" (prop_set "_json" v this) = Some v.
Proof.
  unfold prop_set. destruct (has_own "_json" this) eqn:E.
  - now apply prop_get_replace.
  - change (array_index "_json") with (@None N). now apply prop_get_app_new.
Qed.

Lemma prop_get_set_json_other k (v : jsval) (this : object) :
  k <> "_json" -> prop_get k (prop_set "_json" v this) = prop_get k this.
Proof.
  intros Hk. unfold prop_set. destruct (has_own "_json" this) eqn:E.
  - now apply prop_get_replace_other.
  - change (array_index "_json") with (@None N). now apply prop_get_app_other.
Qed.

Section ChangedFacts.
Context {platform : Platform}.

Lemma encode_session_set_json (v : jsval) (this : object) :
  encode_session (prop_set "_json" v this) = encode_session this.
Proof. unfold encode_session. now rewrite toJSON_set_json. Qed.

End ChangedFacts.


(* ================================================================= *)
(** * The middleware, phase by phase *)

Section MiddlewareFacts.
Context {platform : Platform}.
Variable cfg : config.
Variable w : world.

Lemma load_frame t :
  load cfg w t = (t ++ fst (load cfg w []), snd (load cfg w [])).
Proof.
  run_M.
  destruct (w_cookie w) as [sid|]; [destruct (negb (sid =? ""))|];
    try same_trace.
  destruct (w_get w sid) as [[j|]|e]; [destruct (negb (j =? ""))| |];
    try same_trace.
  destruct (decode j) as [obj|e]; [destruct (Session (Some obj)) as [s|e]|];
    try destruct (instanceof_SyntaxError e); same_trace.
Qed.

Lemma finalize_frame this sid json sess t :
  finalize cfg w this sid json sess t =
  (t ++ fst (finalize cfg w this sid json sess []),
   snd (finalize cfg w this sid json sess [])).
Proof.
  run_M. destruct sess as [| |s]; try same_trace.
  - destruct (w_del w sid); same_trace.
  - destruct (negb _ && _); try same_trace.
    destruct (changed s json) as [[] s']; try same_trace.
    destruct (prop_get "_ctx" s') as [[|d]|]; try same_trace.
    destruct (prop_get "_json" s') as [j|].
    + destruct (truthy_js j); destruct (w_set w sid _); same_trace.
    + destruct (w_set w sid _); same_trace.
Qed.

Lemma middleware_eq next :
  middleware cfg w next [] =
  match load cfg w [] with
  | (t, inl l) =>
      let (sess, err) := downstream next (l_sess l) in
      match finalize cfg w (l_this l) (l_sid l) (l_json l) sess t with
      | (t', inl _) => (t', match err with Some e => inr e | None => inl tt end)
      | (t', inr e') => (t', inr e')
      end
  | (t, inr e) => (t, inr e)
  end.
Proof.
  unfold middleware, bind.
  destruct (load cfg w []) as [t [l|e]]; [|reflexivity].
  destruct (downstream next (l_sess l)) as [sess err].
  destruct (finalize cfg w (l_this l) (l_sid l) (l_json l) sess t) as [t' [[]|e']];
    [|reflexivity].
  destruct err; reflexivity.
Qed.

Lemma load_writes_nothing : writes (fst (load cfg w [])) = [].
Proof.
  run_M.
  destruct (w_cookie w) as [sid|]; [destruct (negb (sid =? ""))|];
    try reflexivity.
  destruct (w_get w sid) as [[j|]|e]; [destruct (negb (j =? ""))| |];
    try reflexivity.
  destruct (decode j) as [obj|e]; [destruct (Session (Some obj)) as [s|e]|];
    try destruct (instanceof_SyntaxError e); reflexivity.
Qed.

Lemma load_session_defined t l :
  load cfg w [] = (t, inl l) -> exists s, l_sess l = SObj s.
Proof.
  run_M.
  destruct (w_cookie w) as [sid|]; [destruct (negb (sid =? ""))|];
    try (intros [= <- <-]; eexists; reflexivity).
  destruct (w_get w sid) as [[j|]|e]; [destruct (negb (j =? ""))| |];
    try (intros [= <- <-]; eexists; reflexivity).
  destruct (decode j) as [obj|e]; [destruct (Session (Some obj)) as [s|e]|];
    try destruct (instanceof_SyntaxError e);
    try (intros [= <- <-]; eexists; reflexivity); discriminate.
Qed.

(** The handler cannot make [sess] undefined again, so the first branch of
    the finalize phase, the one for a session that was not accessed, is
    never taken. *)
Lemma step_defined a sess sess' :
  step a sess = inl sess' -> sess <> SUndefined -> sess' <> SUndefined.
Proof.
  destruct a as [| |val|k v|k|e]; cbn [step].
  - now intros [= <-].
  - now intros [= <-].
  - unfold session_setter.
    destruct val; cbn [typeof_object]; try discriminate;
      try (intros [= <-]; discriminate);
      destruct (Session _); intros [= <-]; discriminate.
  - destruct sess as [| |s]; cbn [session_getter]; try discriminate.
    destruct (assign k (Data v) s); intros [= <-]; discriminate.
  - destruct sess as [| |s]; cbn [session_getter]; try discriminate.
    intros [= <-]; discriminate.
  - discriminate.
Qed.

Lemma downstream_defined next sess :
  sess <> SUndefined -> fst (downstream next sess) <> SUndefined.
Proof.
  revert sess. induction next as [|a next IH]; intros sess Hs; [exact Hs|].
  cbn [downstream]. destruct (step a sess) as [sess'|e] eqn:E; [|exact Hs].
  apply IH. now apply (step_defined a sess).
Qed.

(** Once the handler has assigned null, the session stays unset unless the
    handler assigns [this.session] again. *)
Lemma downstream_app pre post sess sess1 :
  downstream pre sess = (sess1, None) ->
  downstream (pre ++ post) sess = downstream post sess1.
Proof.
  revert sess. induction pre as [|a pre IH]; intros sess; cbn [downstream List.app].
  - now intros [= ->].
  - destruct (step a sess) as [sess'|e]; [apply IH|discriminate].
Qed.

Lemma unset_stays_unset post :
  Forall (fun a => forall val, a <> SetSession val) post ->
  fst (downstream post SFalse) = SFalse.
Proof.
  induction 1 as [|a post Ha Hpost IH]; [reflexivity|].
  cbn [downstream].
  destruct a as [| |val|k v|k|e]; cbn [step session_getter]; auto.
  now destruct (Ha val).
Qed.

Lemma set_null_leaves_unset pre post sess sess1 :
  downstream pre sess = (sess1, None) ->
  Forall (fun a => forall val, a <> SetSession val) post ->
  fst (downstream (pre ++ SetSession VNull :: post) sess) = SFalse.
Proof.
  intros Hpre Hpost. rewrite (downstream_app _ _ _ _ Hpre).
  cbn [downstream step session_setter]. now apply unset_stays_unset.
Qed.

Lemma finalize_never_unaccessed next t l :
  load cfg w [] = (t, inl l) ->
  fst (downstream next (l_sess l)) <> SUndefined.
Proof.
  intros Hl. apply downstream_defined.
  destruct (load_session_defined _ _ Hl) as [s ->]. discriminate.
Qed.

Lemma load_identifier t l :
  load cfg w [] = (t, inl l) ->
  ctx_sessionId (l_this l) = Some (l_sid l) /\
  ctx_sessionKey (l_this l) = key cfg /\
  ctx_cookieOption (l_this l) = cookieOption cfg /\
  l_sid l = if truthy_str (l_json l) then the (w_cookie w) else w_uid w.
Proof.
  run_M.
  destruct (w_cookie w) as [sid|]; [destruct (negb (sid =? "")) eqn:Es|];
    try (intros [= <- <-]; cbn; auto).
  destruct (w_get w sid) as [[j|]|e]; [destruct (negb (j =? "")) eqn:Ej| |];
    try (intros [= <- <-]; cbn; rewrite ?Ej; auto).
  destruct (decode j) as [obj|e]; [destruct (Session (Some obj)) as [s|e]|];
    try destruct (instanceof_SyntaxError e);
    try (intros [= <- <-]; cbn; rewrite ?Ej; auto); discriminate.
Qed.


Lemma load_record t l :
  load cfg w [] = (t, inl l) ->
  truthy_str (l_json l) = true ->
  truthy_str (w_cookie w) = true /\
  w_get w (the (w_cookie w)) = inl (l_json l).
Proof.
  run_M.
  destruct (w_cookie w) as [sid|]; [destruct (negb (sid =? "")) eqn:Es|];
    try (intros [= <- <-]; discriminate).
  destruct (w_get w sid) as [[j|]|e]; [destruct (negb (j =? "")) eqn:Ej| |];
    try (intros [= <- <-]; cbn; rewrite ?Ej; discriminate).
  destruct (decode j) as [obj|e]; [destruct (Session (Some obj)) as [s|e]|];
    try destruct (instanceof_SyntaxError e);
    try (intros [= <- <-]; cbn; auto); discriminate.
Qed.

Lemma finalize_uses_sid this sid json sess :
  ctx_sessionId this = Some sid ->
  Forall (uses_sid sid) (fst (finalize cfg w this sid json sess [])).
Proof.
  intros Hid. run_M. destruct sess as [| |s]; cbn [fst].
  - constructor.
  - destruct (w_del w sid); cbn; repeat apply Forall_cons; cbn; auto.
  - destruct (negb _ && _); [constructor|].
    destruct (changed s json) as [[] s']; [|constructor].
    destruct (prop_get "_ctx" s') as [[|d]|]; try constructor.
    destruct (prop_get "_json" s') as [j|];
      [destruct (truthy_js j)|]; destruct (w_set w sid _); cbn;
      repeat apply Forall_cons; cbn; auto.
Qed.


(** C2, amended. The identifier of the request is fixed by the end of the
    load phase: the one read from the cookie when the store returned a
    record for it, a freshly generated one otherwise (no cookie, or no
    record, or a failed read). The context carries that identifier, and
    every store call and cookie write made after the load phase uses it. *)
Theorem identifier_fixed_after_load next t l :
  load cfg w [] = (t, inl l) ->
  (if truthy_str (l_json l)
   then w_get w (the (w_cookie w)) = inl (l_json l) /\
        l_sid l = the (w_cookie w)
   else l_sid l = w_uid w) /\
  ctx_sessionId (l_this l) = Some (l_sid l) /\
  exists t', fst (middleware cfg w next []) = t ++ t' /\
             Forall (uses_sid (l_sid l)) t'.
Proof.
  intros Hl. destruct (load_identifier _ _ Hl) as (Hid & _ & _ & Hsid).
  split; [|split; [exact Hid|]].
  - destruct (truthy_str (l_json l)) eqn:Hj; [|exact Hsid].
    split; [|exact Hsid]. now apply (load_record _ _ Hl).
  - destruct (downstream next (l_sess l)) as [sess err] eqn:Hd.
    exists (fst (finalize cfg w (l_this l) (l_sid l) (l_json l) sess [])).
    split; [|now apply finalize_uses_sid].
    rewrite middleware_eq, Hl, Hd, finalize_frame.
    destruct (snd _) as [u|e']; reflexivity.
Qed.


(** C5. When building the session from the loaded record fails with [e]:
    if [e] is a [SyntaxError] (the record is not base64 of JSON text) the
    load phase goes on without error, with a fresh empty session under the
    identifier of the cookie; otherwise the middleware raises [e] at once,
    having called nothing but the cookie read and the store read, and
    whatever the handler. *)
Theorem malformed_record_policy sid j e next :
  w_cookie w = Some sid -> truthy_str (Some sid) = true ->
  w_get w sid = inl (Some j) -> truthy_str (Some j) = true ->
  revive j = inr e ->
  if instanceof_SyntaxError e then
    load cfg w [] =
      ([CookiesGet (key cfg) (cookieOption cfg); ClientGet sid],
       inl {| l_this := {| ctx_cookieOption := cookieOption cfg;
                           ctx_sessionKey := key cfg;
                           ctx_sessionId := Some sid |};
              l_sid := sid; l_json := Some j; l_sess := SObj fresh_session |})
  else
    middleware cfg w next [] =
      ([CookiesGet (key cfg) (cookieOption cfg); ClientGet sid], inr e).
Proof.
  intros Hc Hs Hg Hj Hr.
  assert (Hl : load cfg w [] =
               ([CookiesGet (key cfg) (cookieOption cfg); ClientGet sid],
                if instanceof_SyntaxError e
                then inl {| l_this := {| ctx_cookieOption := cookieOption cfg;
                                         ctx_sessionKey := key cfg;
                                         ctx_sessionId := Some sid |};
                            l_sid := sid; l_json := Some j;
                            l_sess := SObj fresh_session |}
                else inr e)).
  { unfold revive in Hr. cbn [truthy_str] in Hs, Hj. run_M.
    rewrite Hc, Hs, Hg, Hj.
    destruct (decode j) as [obj|e0].
    - rewrite Hr. destruct (instanceof_SyntaxError e); reflexivity.
    - injection Hr as ->. destruct (instanceof_SyntaxError e); reflexivity. }
  destruct (instanceof_SyntaxError e); [exact Hl|].
  now rewrite middleware_eq, Hl.
Qed.

(** C7. When the handler leaves the session set to null, finalize clears
    the cookie by writing the empty value and then calls the store delete
    once, with the identifier of the request, and these are the only
    writes of the request, whatever the session held. *)
Theorem unset_session_is_deleted next t l err :
  load cfg w [] = (t, inl l) ->
  downstream next (l_sess l) = (SFalse, err) ->
  fst (middleware cfg w next []) =
    t ++ [CookiesSet (key cfg) (Some "") (cookieOption cfg);
          ClientDel (l_sid l)] /\
  writes (fst (middleware cfg w next [])) =
    [CookiesSet (key cfg) (Some "") (cookieOption cfg); ClientDel (l_sid l)].
Proof.
  intros Hl Hd.
  assert (H : fst (middleware cfg w next []) =
              t ++ [CookiesSet (key cfg) (Some "") (cookieOption cfg);
                    ClientDel (l_sid l)]).
  { rewrite middleware_eq, Hl, Hd. run_M.
    destruct (w_del w (let (_, l_sid, _, _) := l in l_sid));
      [|destruct err]; cbn; rewrite <- List.app_assoc; reflexivity. }
  split; [exact H|]. rewrite H. unfold writes. rewrite filter_app.
  pose proof load_writes_nothing as Hw. rewrite Hl in Hw.
  unfold writes in Hw. cbn [fst] in Hw. rewrite Hw. reflexivity.
Qed.

End MiddlewareFacts.

(** C6. When the store read fails, the load phase does not fail: it
    yields a fresh session under a new identifier, and the whole request
    goes as it does against a store that has no record. *)
Theorem load_failure_is_absent {platform : Platform} cfg w e next :
  truthy_str (w_cookie w) = true ->
  w_get w (the (w_cookie w)) = inr e ->
  load cfg w [] =
    ([CookiesGet (key cfg) (cookieOption cfg); ClientGet (the (w_cookie w));
      Uid 24],
     inl {| l_this := {| ctx_cookieOption := cookieOption cfg;
                         ctx_sessionKey := key cfg;
                         ctx_sessionId := Some (w_uid w) |};
            l_sid := w_uid w; l_json := None; l_sess := SObj fresh_session |})
  /\ middleware cfg w next [] = middleware cfg (store_absent w) next [].
Proof.
  intros Hc Hg.
  assert (Hl : load cfg w [] = load cfg (store_absent w) []).
  { run_M. cbn [w_cookie w_get w_uid store_absent].
    destruct (w_cookie w) as [sid|]; [|discriminate].
    cbn [truthy_str the] in Hc, Hg. rewrite Hc, Hg. reflexivity. }
  split.
  - rewrite Hl. run_M. cbn [w_cookie w_get w_uid store_absent].
    destruct (w_cookie w) as [sid|]; [|discriminate].
    cbn [truthy_str] in Hc. rewrite Hc. reflexivity.
  - rewrite !middleware_eq, Hl. reflexivity.
Qed.

(* ================================================================= *)
(** * The platform primitives invert each other *)

Module NodeFacts.
Import Node.

(** ** base64 *)

Lemma below_64 (P : N -> Prop) :
  (forall i : nat, (i < 64)%nat -> P (N.of_nat i)) ->
  forall n, (n < 64)%N -> P n.
Proof.
  intros H n Hn. rewrite <- (N2Nat.id n). apply H. lia.
Qed.

Lemma unbase64_base64_char n :
  (n < 64)%N ->
  unbase64 (base64_char n) = Some n /\ (base64_char n =? "=")%char = false.
Proof.
  revert n. apply below_64. intros i Hi.
  do 64 (destruct i as [|i]; [split; reflexivity|]). lia.
Qed.

Lemma sextets_cons n r :
  (n < 64)%N -> sextets (base64_char n :: r) = n :: sextets r.
Proof.
  intros Hn. destruct (unbase64_base64_char n Hn) as [H1 H2].
  cbn [sextets]. now rewrite H2, H1.
Qed.

Lemma byte_of a n : n = N_of_ascii a -> ascii_of_N n = a.
Proof. intros ->. apply ascii_N_embedding. Qed.

Lemma from_to_base64 bytes : from_base64 (to_base64 bytes) = bytes.
Proof.
  unfold from_base64.
  assert (H : forall n bs, (List.length bs <= n)%nat ->
                           from_sextets (sextets (to_base64 bs)) = bs).
  { induction n as [|n IH]; intros bs Hlen.
    - destruct bs; [reflexivity|cbn in Hlen; lia].
    - destruct bs as [|a [|b [|c rest]]]; [reflexivity| | |].
      + cbn [to_base64]. rewrite !sextets_cons by div_mod_lia.
        cbn. f_equal. apply byte_of. div_mod_lia.
      + cbn [to_base64]. rewrite !sextets_cons by div_mod_lia.
        cbn. f_equal; [|f_equal]; apply byte_of; div_mod_lia.
      + cbn [to_base64]. rewrite !sextets_cons by div_mod_lia.
        cbn [from_sextets]. rewrite IH by (cbn in Hlen; lia).
        f_equal; [|f_equal; [|f_equal]]; apply byte_of; div_mod_lia. }
  now apply (H (List.length bytes)).
Qed.

Lemma base64_decode_encode (s : string) :
  base64_decode (base64_encode s) = s.
Proof.
  cbn [base64_decode base64_encode platform]. unfold chars.
  now rewrite list_ascii_of_string_of_list_ascii, from_to_base64,
    string_of_list_ascii_of_string.
Qed.


(** ** Property order *)

Lemma insert_index_last {A : Type} n k (v : A) (o : list (string * A)) :
  forallb (fun kv => match array_index (fst kv) with
                     | Some m => (m <? n)%N
                     | None => false
                     end) o = true ->
  insert_index n k v o = o ++ [(k, v)].
Proof.
  induction o as [|[k' v'] o IH]; cbn [forallb insert_index fst List.app];
    [reflexivity|].
  intros H. apply andb_true_iff in H. destruct H as [H1 H2].
  destruct (array_index k') as [m|]; [|discriminate].
  rewrite H1. now rewrite IH.
Qed.

Lemma prop_set_appendable {A : Type} k (v : A) (o : list (string * A)) :
  appendable k o = true -> prop_set k v o = o ++ [(k, v)].
Proof.
  unfold appendable, prop_set. intros H.
  apply andb_true_iff in H. destruct H as [H1 H2].
  apply negb_true_iff in H1. rewrite H1.
  destruct (array_index k) as [n|]; [|reflexivity].
  now apply insert_index_last.
Qed.

Lemma define_all_enumerated {A : Type} (o acc : list (string * A)) :
  enumerated_from acc o = true -> define_all o acc = acc ++ o.
Proof.
  revert acc. induction o as [|[k v] o IH]; intros acc; cbn.
  - now rewrite List.app_nil_r.
  - intros H. apply andb_true_iff in H. destruct H as [H1 H2].
    unfold define_all in IH. rewrite prop_set_appendable by exact H1.
    rewrite IH by exact H2. now rewrite <- List.app_assoc.
Qed.

(** ** Numbers *)

Lemma read_digits_uint d rest :
  ends_number rest = true -> read_digits (uint_chars d ++ rest) = (d, rest).
Proof.
  intros Hrest.
  induction d; cbn [uint_chars List.app read_digits digit_of];
    try (now rewrite IHd).
  destruct rest as [|c r]; [reflexivity|].
  cbn [read_digits]. cbn [ends_number] in Hrest.
  destruct (digit_of c); [discriminate|reflexivity].
Qed.

Lemma to_uint_normal n : unorm (N.to_uint n) = N.to_uint n.
Proof.
  rewrite <- (DecimalN.Unsigned.of_to n) at 2.
  now rewrite DecimalN.Unsigned.to_of.
Qed.

Lemma uint_chars_head d rest :
  d <> Nil ->
  exists c tl, uint_chars d ++ rest = c :: tl /\
               (c =? "-")%char = false /\ starts_number (c :: tl) = true /\
               is_ws c = false /\ (c =? "]")%char = false /\
               (c =? "}")%char = false.
Proof.
  destruct d; [congruence|..]; intros _; cbn [uint_chars List.app];
    eexists; eexists; (split; [reflexivity|]); repeat split; reflexivity.
Qed.

Lemma parse_number_number z rest :
  ends_number rest = true ->
  parse_number (number z ++ rest) = Some (z, rest).
Proof.
  intros Hrest. destruct z as [|p|p].
  - cbn [number List.app]. unfold parse_number.
    change ("0"%char =? "-")%char with false. cbv iota.
    change (read_digits ("0"%char :: rest))
      with (read_digits (uint_chars (D0 Nil) ++ rest)).
    rewrite read_digits_uint by exact Hrest. rewrite Hrest. reflexivity.
  - cbn [number]. unfold parse_number.
    destruct (uint_chars_head (N.to_uint (N.pos p)) rest) as (c & tl & E & Hm & _).
    { apply DecimalPos.Unsigned.to_uint_nonnil. }
    rewrite E at 1. cbv iota. rewrite Hm. cbv iota.
    rewrite read_digits_uint by exact Hrest.
    rewrite to_uint_normal, (internal_uint_dec_lb _ _ eq_refl), Hrest.
    cbn [andb]. now rewrite DecimalN.Unsigned.of_to.
  - cbn [number List.app]. unfold parse_number.
    change ("-"%char =? "-")%char with true. cbv iota.
    rewrite read_digits_uint by exact Hrest.
    rewrite to_uint_normal, (internal_uint_dec_lb _ _ eq_refl), Hrest.
    cbn [andb]. now rewrite DecimalN.Unsigned.of_to.
Qed.

Lemma parse_value_number fuel s :
  starts_number s = true ->
  parse_value (S fuel) s =
  match parse_number s with
  | Some (z, rest) => Some (VNum z, rest)
  | None => None
  end.
Proof.
  destruct s as [|c r]; [discriminate|].
  destruct c as [[] [] [] [] [] [] [] []]; try discriminate; reflexivity.
Qed.

Lemma number_head z rest :
  exists c tl, number z ++ rest = c :: tl /\
               starts_number (c :: tl) = true /\
               is_ws c = false /\ (c =? "]")%char = false /\
               (c =? "}")%char = false.
Proof.
  destruct z as [|p|p].
  - eexists; eexists; (split; [reflexivity|]); repeat split; reflexivity.
  - destruct (uint_chars_head (N.to_uint (N.pos p)) rest)
      as (c & tl & E & _ & H); [apply DecimalPos.Unsigned.to_uint_nonnil|].
    now exists c, tl.
  - eexists; eexists; (split; [reflexivity|]); repeat split; reflexivity.
Qed.

(** ** Strings *)

Lemma parse_string_escape c s :
  parse_string (escape c ++ s) =
  match parse_string s with
  | Some (t, rest) => Some (c :: t, rest)
  | None => None
  end.
Proof.
  destruct c as [[] [] [] [] [] [] [] []]; reflexivity.
Qed.

Lemma parse_string_escaped cs rest :
  parse_string (flat_map escape cs ++ dquote :: rest) = Some (cs, rest).
Proof.
  induction cs as [|c cs IH]; [reflexivity|].
  cbn [flat_map]. rewrite <- List.app_assoc, parse_string_escape, IH. reflexivity.
Qed.

Lemma quote_app s rest :
  quote s ++ rest = dquote :: flat_map escape (chars s) ++ dquote :: rest.
Proof. unfold quote. cbn [List.app]. now rewrite <- List.app_assoc. Qed.


(** ** Values *)

Lemma parse_value_string fuel r :
  parse_value (S fuel) (dquote :: r) =
  match parse_string r with
  | Some (t, rest) => Some (VStr (string_of_list_ascii t), rest)
  | None => None
  end.
Proof. reflexivity. Qed.

Lemma parse_value_array fuel r :
  parse_value (S fuel) ("["%char :: r) =
  match skip_ws r with
  | c :: r' =>
      if (c =? "]")%char then Some (VArr [], r')
      else match parse_elements fuel r with
           | Some (vs, rest) => Some (VArr vs, rest)
           | None => None
           end
  | [] => None
  end.
Proof. reflexivity. Qed.

Lemma parse_value_object fuel r :
  parse_value (S fuel) ("{"%char :: r) =
  match skip_ws r with
  | c :: r' =>
      if (c =? "}")%char then Some (VObj [], r')
      else match parse_members fuel r with
           | Some (ms, rest) => Some (VObj (define_all ms []), rest)
           | None => None
           end
  | [] => None
  end.
Proof. reflexivity. Qed.

Lemma parse_elements_step fuel s :
  parse_elements (S fuel) s =
  match parse_value fuel s with
  | Some (v, r) =>
      match skip_ws r with
      | c :: r' =>
          if (c =? ",")%char then
            match parse_elements fuel r' with
            | Some (vs, rest) => Some (v :: vs, rest)
            | None => None
            end
          else if (c =? "]")%char then Some ([v], r')
          else None
      | [] => None
      end
  | None => None
  end.
Proof. reflexivity. Qed.

Lemma parse_members_step fuel r :
  parse_members (S fuel) (dquote :: r) =
  match parse_string r with
  | Some (k, r1) =>
      match skip_ws r1 with
      | colon :: r2 =>
          if (colon =? ":")%char then
            match parse_value fuel r2 with
            | Some (v, r3) =>
                match skip_ws r3 with
                | c :: r4 =>
                    if (c =? ",")%char then
                      match parse_members fuel r4 with
                      | Some (ms, rest) =>
                          Some ((string_of_list_ascii k, v) :: ms, rest)
                      | None => None
                      end
                    else if (c =? "}")%char then
                      Some ([(string_of_list_ascii k, v)], r4)
                    else None
                | [] => None
                end
            | None => None
            end
          else None
      | [] => None
      end
  | None => None
  end.
Proof. reflexivity. Qed.

Lemma stringify_head v rest :
  exists c tl, stringify v ++ rest = c :: tl /\
               is_ws c = false /\ (c =? "]")%char = false.
Proof.
  destruct v as [|[]|z|s|l|o];
    try (eexists; eexists; split; [reflexivity|split; reflexivity]).
  destruct (number_head z rest) as (c & tl & E & _ & H1 & H2 & _).
  exists c, tl. auto.
Qed.

Lemma join_cons {A : Type} (f : A -> list ascii) x l :
  join f (x :: l) =
  f x ++ match l with [] => [] | _ :: _ => ","%char :: join f l end.
Proof. reflexivity. Qed.

Lemma skip_ws_token c r : is_ws c = false -> skip_ws (c :: r) = c :: r.
Proof. intros H. cbn [skip_ws]. now rewrite H. Qed.

Lemma parse_elements_join l :
  Forall (fun v => representable v = true ->
                   forall fuel rest, size v <= fuel -> ends_number rest = true ->
                   parse_value fuel (stringify v ++ rest) = Some (v, rest)) l ->
  l <> [] -> forallb representable l = true ->
  forall fuel rest,
    fold_right (fun x n => S (size x + n)) 0 l <= fuel ->
    parse_elements fuel (join stringify l ++ "]"%char :: rest) = Some (l, rest).
Proof.
  induction 1 as [|x l Hx Hl IH]; [congruence|].
  intros _ Hrep fuel rest Hfuel.
  cbn [forallb] in Hrep. apply andb_true_iff in Hrep. destruct Hrep as [Rx Rl].
  cbn [fold_right] in Hfuel. destruct fuel as [|fuel]; [lia|].
  rewrite parse_elements_step, join_cons, <- List.app_assoc.
  destruct l as [|y l].
  - cbn [List.app]. rewrite Hx by (auto; lia). reflexivity.
  - rewrite <- List.app_comm_cons.
    rewrite Hx by (auto; lia). rewrite skip_ws_token by reflexivity.
    change (","%char =? ",")%char with true. cbv iota.
    rewrite IH; [reflexivity|congruence|exact Rl|lia].
Qed.


Lemma parse_members_join o :
  Forall (fun kv => representable (snd kv) = true ->
                    forall fuel rest,
                      size (snd kv) <= fuel -> ends_number rest = true ->
                      parse_value fuel (stringify (snd kv) ++ rest) =
                      Some (snd kv, rest)) o ->
  o <> [] -> forallb (fun kv => representable (snd kv)) o = true ->
  forall fuel rest,
    fold_right (fun kv n => S (size (snd kv) + n)) 0 o <= fuel ->
    parse_members fuel
      (join (fun kv => quote (fst kv) ++ ":"%char :: stringify (snd kv)) o ++
       "}"%char :: rest) = Some (o, rest).
Proof.
  induction 1 as [|[k v] o Hx Ho IH]; [congruence|].
  intros _ Hrep fuel rest Hfuel. cbn [snd fst] in *.
  cbn [forallb snd] in Hrep. apply andb_true_iff in Hrep.
  destruct Hrep as [Rx Ro].
  cbn [fold_right snd] in Hfuel. destruct fuel as [|fuel]; [lia|].
  rewrite join_cons. cbn [fst snd].
  rewrite <- !List.app_assoc, quote_app, <- List.app_comm_cons.
  rewrite parse_members_step, parse_string_escaped.
  rewrite skip_ws_token by reflexivity.
  change (":"%char =? ":")%char with true. cbv iota.
  unfold chars. rewrite string_of_list_ascii_of_string.
  destruct o as [|y o].
  - cbn [List.app]. rewrite Hx by (auto; lia). reflexivity.
  - rewrite <- List.app_comm_cons.
    rewrite Hx by (auto; lia). rewrite skip_ws_token by reflexivity.
    change (","%char =? ",")%char with true. cbv iota.
    rewrite IH; [reflexivity|congruence|exact Ro|lia].
Qed.

Lemma parse_value_stringify v :
  representable v = true ->
  forall fuel rest,
    size v <= fuel -> ends_number rest = true ->
    parse_value fuel (stringify v ++ rest) = Some (v, rest).
Proof.
  induction v as [|b|z|s|l IH|o IH] using value_induction; intros Hrep fuel rest Hfuel Hrest;
    cbn [size] in Hfuel; (destruct fuel as [|fuel]; [lia|]).
  - reflexivity.
  - destruct b; reflexivity.
  - destruct (number_head z rest) as (c & tl & E & Hs & _).
    cbn [stringify]. rewrite parse_value_number by (rewrite E; exact Hs).
    now rewrite parse_number_number.
  - cbn [stringify]. rewrite quote_app, parse_value_string.
    rewrite parse_string_escaped. unfold chars.
    now rewrite string_of_list_ascii_of_string.
  - cbn [stringify]. rewrite <- List.app_comm_cons, <- List.app_assoc.
    rewrite parse_value_array. cbn [representable] in Hrep.
    destruct l as [|x l]; [reflexivity|].
    rewrite join_cons, <- List.app_assoc.
    destruct (stringify_head x
                ((match l with [] => [] | _ :: _ => ","%char :: join stringify l end)
                 ++ ["]"%char] ++ rest)) as (c & tl & E & Hws & Hc).
    rewrite E, skip_ws_token, Hc by exact Hws. rewrite <- E.
    rewrite List.app_assoc, <- join_cons.
    change (["]"%char] ++ rest) with ("]"%char :: rest).
    rewrite parse_elements_join; auto; [congruence|lia].
  - cbn [stringify]. rewrite <- List.app_comm_cons, <- List.app_assoc.
    rewrite parse_value_object. cbn [representable] in Hrep.
    apply andb_true_iff in Hrep. destruct Hrep as [Hord Hrep].
    destruct o as [|[k v] o]; [reflexivity|].
    change (["}"%char] ++ rest) with ("}"%char :: rest).
    assert (E : exists tl,
               join (fun kv => quote (fst kv) ++ ":"%char :: stringify (snd kv))
                 ((k, v) :: o) ++ "}"%char :: rest = dquote :: tl).
    { rewrite join_cons. cbn [fst]. unfold quote. cbn [List.app].
      eexists. reflexivity. }
    destruct E as [tl E]. rewrite E, skip_ws_token by reflexivity.
    change (dquote =? "}")%char with false. cbv iota. rewrite <- E.
    rewrite parse_members_join; auto; [|congruence|lia].
    unfold enumeration_order in Hord.
    now rewrite (define_all_enumerated _ [] Hord).
Qed.

Lemma size_le_length v : size v <= List.length (stringify v).
Proof.
  induction v as [|b|z|s|l IH|o IH] using value_induction;
    cbn [size stringify].
  - cbn. lia.
  - destruct b; cbn; lia.
  - destruct (number_head z []) as (c & tl & E & _).
    rewrite List.app_nil_r in E. rewrite E. cbn. lia.
  - unfold quote. cbn [List.length]. lia.
  - cbn [List.length]. rewrite List.length_app. cbn [List.length].
    enough (fold_right (fun x n => S (size x + n)) 0 l
            <= List.length (join stringify l) + 1) by lia.
    induction IH as [|x l Hx Hl IHl]; [cbn; lia|].
    rewrite join_cons, List.length_app. cbn [fold_right].
    destruct l; [cbn; lia|]. cbn [List.length]. lia.
  - cbn [List.length]. rewrite List.length_app. cbn [List.length].
    enough (fold_right (fun kv n => S (size (snd kv) + n)) 0 o
            <= List.length
                 (join (fun kv => quote (fst kv) ++ ":"%char :: stringify (snd kv))
                    o) + 1) by lia.
    induction IH as [|[k v] o Hx Ho IHo]; [cbn; lia|].
    rewrite join_cons, !List.length_app. cbn [fold_right fst snd] in *.
    cbn [List.length].
    destruct o; [cbn; lia|]. cbn [List.length]. lia.
Qed.

Lemma JSON_parse_stringify v :
  representable v = true -> JSON_parse (JSON_stringify v) = inl v.
Proof.
  intros Hrep. cbn [JSON_parse JSON_stringify platform]. unfold parse, chars.
  rewrite list_ascii_of_string_of_list_ascii.
  rewrite <- (List.app_nil_r (stringify v)) at 2.
  rewrite parse_value_stringify; auto.
  pose proof (size_le_length v). lia.
Qed.

End NodeFacts.

(** [decode] inverts [encode] on every platform whose primitives invert
    each other. *)
Lemma decode_encode_inverse {platform : Platform} (ok : value -> Prop) :
  (forall s, base64_decode (base64_encode s) = s) ->
  (forall v, ok v -> JSON_parse (JSON_stringify v) = inl v) ->
  forall v, ok v -> decode (encode v) = inl v.
Proof.
  intros Hb Hj v Hv. unfold decode, encode. rewrite Hb. now apply Hj.
Qed.


(* ================================================================= *)
(** * Well-formed objects *)

Lemma array_index_inj k k' n :
  array_index k = Some n -> array_index k' = Some n -> k = k'.
Proof.
  unfold array_index. intros H H'.
  destruct (NilEmpty.uint_of_string k) as [d|] eqn:E; [|discriminate].
  destruct (NilEmpty.uint_of_string k') as [d'|] eqn:E'; [|discriminate].
  destruct (uint_beq (unorm d) d) eqn:B; [|discriminate].
  destruct (uint_beq (unorm d') d') eqn:B'; [|discriminate].
  cbn [andb] in H, H'.
  destruct (N.of_uint d <? 4294967295)%N; [|discriminate].
  destruct (N.of_uint d' <? 4294967295)%N; [|discriminate].
  injection H as H. injection H' as H'.
  apply internal_uint_dec_bl in B, B'.
  assert (Hd : d = d').
  { rewrite <- B, <- B', <- !DecimalN.Unsigned.to_of. congruence. }
  subst d'. apply NilEmpty.sus in E, E'. congruence.
Qed.

Lemma key_before_neq k1 k2 : key_before k1 k2 -> k1 <> k2.
Proof.
  unfold key_before. intros H ->.
  destruct (array_index k2); [lia|congruence].
Qed.

Section ObjectFacts.
Context {A : Type}.
Implicit Types (o : list (string * A)) (k : string) (v : A).

Lemma has_own_In k o : has_own k o = true <-> In k (Object_keys o).
Proof.
  unfold has_own, Object_keys. rewrite existsb_exists, in_map_iff.
  split; intros [kv [H1 H2]]; exists kv.
  - apply String.eqb_eq in H2. auto.
  - split; [exact H2|]. now apply String.eqb_eq.
Qed.

Lemma has_own_not_In k o : has_own k o = false <-> ~ In k (Object_keys o).
Proof.
  rewrite <- has_own_In. destruct (has_own k o); split; congruence.
Qed.

Lemma appendable_spec k o :
  appendable k o = true <->
  Forall (fun k' => key_before k' k) (Object_keys o).
Proof.
  unfold appendable. rewrite andb_true_iff, negb_true_iff, has_own_not_In.
  unfold key_before. split.
  - intros [Hnew Hidx]. apply Forall_forall. intros k' Hin.
    destruct (array_index k) as [n|] eqn:Ek.
    + rewrite forallb_forall in Hidx.
      apply in_map_iff in Hin. destruct Hin as [kv [<- Hin]].
      specialize (Hidx kv Hin).
      destruct (array_index (fst kv)); [|discriminate].
      now apply N.ltb_lt.
    + destruct (array_index k'); [exact I|]. congruence.
  - intros Hall. rewrite Forall_forall in Hall. split.
    + intros Hin. specialize (Hall k Hin).
      destruct (array_index k); [lia|congruence].
    + destruct (array_index k) as [n|] eqn:Ek; [|reflexivity].
      apply forallb_forall. intros kv Hin.
      specialize (Hall (fst kv) (in_map fst _ _ Hin)).
      destruct (array_index (fst kv)); [now apply N.ltb_lt|contradiction].
Qed.

Lemma keys_app o o' : Object_keys (o ++ o') = Object_keys o ++ Object_keys o'.
Proof. apply map_app. Qed.

End ObjectFacts.

Lemma StronglySorted_snoc {A : Type} (R : A -> A -> Prop) l x :
  StronglySorted R (l ++ [x]) <->
  StronglySorted R l /\ Forall (fun y => R y x) l.
Proof.
  induction l as [|a l IH]; cbn [List.app].
  - split; [intros _; split; constructor|].
    intros _. repeat constructor.
  - split.
    + intros H. apply StronglySorted_inv in H. destruct H as [H1 H2].
      apply IH in H1. destruct H1 as [H1 H3].
      apply Forall_app in H2. destruct H2 as [H2 H4].
      split; constructor; auto. now inversion H4.
    + intros [H1 H2]. apply StronglySorted_inv in H1. destruct H1 as [H1 H3].
      inversion H2; subst. constructor.
      * apply IH. auto.
      * apply Forall_app. split; auto.
Qed.

Lemma enumerated_from_spec {A : Type} (o acc : list (string * A)) :
  well_formed acc ->
  (enumerated_from acc o = true <-> well_formed (acc ++ o)).
Proof.
  revert acc. induction o as [|kv o IH]; intros acc Hacc; cbn [enumerated_from].
  - rewrite List.app_nil_r. split; auto.
  - rewrite andb_true_iff, appendable_spec.
    replace (acc ++ kv :: o) with ((acc ++ [kv]) ++ o)
      by now rewrite <- List.app_assoc.
    split.
    + intros [H1 H2]. apply IH; [|exact H2].
      unfold well_formed. rewrite keys_app. apply StronglySorted_snoc. auto.
    + intros H.
      assert (Hs : well_formed (acc ++ [kv])).
      { unfold well_formed in *. rewrite !keys_app in H.
        rewrite keys_app. clear IH.
        induction (Object_keys acc ++ Object_keys [kv]) as [|a l IHl];
          cbn [List.app] in *; [constructor|].
        apply StronglySorted_inv in H. destruct H as [H1 H2].
        apply Forall_app in H2. constructor; [auto|tauto]. }
      split; [|now apply IH].
      unfold well_formed in Hs. rewrite keys_app in Hs.
      now apply StronglySorted_snoc in Hs.
Qed.

Lemma enumeration_order_spec {A : Type} (o : list (string * A)) :
  enumeration_order o = true <-> well_formed o.
Proof.
  unfold enumeration_order. apply (enumerated_from_spec o []). constructor.
Qed.

Section SetFacts.
Context {A : Type}.
Implicit Types (o : list (string * A)) (k : string) (v : A).

Lemma keys_insert_index_In n k v o k' :
  In k' (Object_keys (insert_index n k v o)) <->
  k' = k \/ In k' (Object_keys o).
Proof.
  split; [apply keys_insert_index|].
  induction o as [|[k1 v1] o IH]; cbn [insert_index Object_keys map fst In].
  - intros [->|[]]. auto.
  - destruct (array_index k1) as [m|]; [destruct (m <? n)%N|];
      cbn [map fst In]; fold (Object_keys o);
      fold (Object_keys (insert_index n k v o)); intuition auto.
Qed.

Lemma keys_prop_set_In k v o k' :
  In k' (Object_keys (prop_set k v o)) <-> k' = k \/ In k' (Object_keys o).
Proof.
  split; [apply keys_prop_set|].
  unfold prop_set. destruct (has_own k o) eqn:E.
  - rewrite keys_prop_replace. apply has_own_In in E. intros [->|H]; auto.
  - destruct (array_index k) as [n|].
    + apply keys_insert_index_In.
    + rewrite keys_app, in_app_iff. cbn. intuition auto.
Qed.

Lemma insert_index_well_formed n k v o :
  array_index k = Some n -> ~ In k (Object_keys o) ->
  well_formed o -> well_formed (insert_index n k v o).
Proof.
  intros Hk. unfold well_formed.
  induction o as [|[k1 v1] o IH]; cbn [insert_index Object_keys map fst];
    intros Hnew Hwf.
  - repeat constructor.
  - fold (Object_keys o) in *. apply StronglySorted_inv in Hwf.
    destruct Hwf as [Hwf Hall].
    assert (Hne : k1 <> k) by (intros ->; apply Hnew; now left).
    assert (Hnew' : ~ In k (Object_keys o)) by (intros H; apply Hnew; now right).
    assert (Hfront : forall x, key_before k1 x ->
                     (forall m, array_index k1 = Some m -> (n < m)%N) ->
                     key_before k x).
    { intros x Hx Hm. unfold key_before in *. rewrite Hk.
      destruct (array_index k1) as [m|], (array_index x) as [p|];
        try exact I; try contradiction.
      specialize (Hm m eq_refl). lia. }
    destruct (array_index k1) as [m|] eqn:E1.
    + destruct (m <? n)%N eqn:Elt; cbn [map fst].
      * fold (Object_keys (insert_index n k v o)).
        constructor; [now apply IH|].
        apply Forall_forall. intros x Hx.
        apply keys_insert_index_In in Hx. destruct Hx as [->|Hx].
        -- unfold key_before. rewrite E1, Hk. now apply N.ltb_lt.
        -- rewrite Forall_forall in Hall. auto.
      * fold (Object_keys o).
        assert (Hlt : (n < m)%N).
        { apply N.ltb_ge in Elt. destruct (N.eq_dec n m) as [->|]; [|lia].
          exfalso. apply Hne. now apply (array_index_inj _ _ m). }
        constructor; [constructor; auto|].
        constructor.
        -- unfold key_before. now rewrite Hk, E1.
        -- eapply Forall_impl; [|exact Hall]. intros x Hx.
           apply Hfront; [exact Hx|]. now intros m' [= <-].
    + cbn [map fst]. fold (Object_keys o).
      constructor; [constructor; auto|].
      constructor.
      * unfold key_before. now rewrite Hk, E1.
      * eapply Forall_impl; [|exact Hall]. intros x Hx.
        apply Hfront; [exact Hx|]. discriminate.
Qed.

Lemma prop_set_well_formed k v o :
  well_formed o -> well_formed (prop_set k v o).
Proof.
  intros Hwf. unfold prop_set. destruct (has_own k o) eqn:E.
  - unfold well_formed. now rewrite keys_prop_replace.
  - apply has_own_not_In in E.
    destruct (array_index k) as [n|] eqn:Ek.
    + now apply insert_index_well_formed.
    + unfold well_formed. rewrite keys_app. apply StronglySorted_snoc.
      split; [exact Hwf|]. apply Forall_forall. intros x Hx.
      unfold key_before. cbn [fst]. rewrite Ek.
      destruct (array_index x); [exact I|]. congruence.
Qed.

Lemma define_all_well_formed (props o : list (string * A)) :
  well_formed o -> well_formed (define_all props o).
Proof.
  revert o. induction props as [|[k v] props IH]; intros o Ho; [exact Ho|].
  cbn. apply IH. now apply prop_set_well_formed.
Qed.

Lemma filter_well_formed (f : string * A -> bool) o :
  well_formed o -> well_formed (filter f o).
Proof.
  unfold well_formed. induction o as [|kv o IH]; cbn [filter]; [auto|].
  cbn [Object_keys map]. fold (Object_keys o). intros H.
  apply StronglySorted_inv in H. destruct H as [H1 H2].
  destruct (f kv); [|auto].
  cbn [Object_keys map]. fold (Object_keys (filter f o)).
  constructor; [auto|].
  apply Forall_forall. intros x Hx. rewrite Forall_forall in H2. apply H2.
  unfold Object_keys in *. apply in_map_iff in Hx.
  destruct Hx as [kv' [<- Hin]]. apply filter_In in Hin.
  apply in_map. tauto.
Qed.

(** Lookup after assignment. *)
Lemma prop_get_insert_index_same n k v o :
  array_index k = Some n -> prop_get k (insert_index n k v o) = Some v.
Proof.
  intros Hk. induction o as [|[k1 v1] o IH]; cbn [insert_index prop_get].
  - now rewrite String.eqb_refl.
  - destruct (array_index k1) as [m|] eqn:E1;
      [destruct (m <? n)%N eqn:Elt|]; cbn [prop_get];
      rewrite ?String.eqb_refl; try reflexivity.
    destruct (String.eqb_spec k1 k) as [->|]; [|exact IH].
    rewrite Hk in E1. injection E1 as <-. rewrite N.ltb_irrefl in Elt.
    discriminate.
Qed.

Lemma prop_get_insert_index_other n k k' v o :
  k' <> k -> prop_get k' (insert_index n k v o) = prop_get k' o.
Proof.
  intros Hne. induction o as [|[k1 v1] o IH]; cbn [insert_index prop_get].
  - destruct (String.eqb_spec k k'); [congruence|reflexivity].
  - destruct (array_index k1) as [m|]; [destruct (m <? n)%N|];
      cbn [prop_get].
    + destruct (k1 =? k'); auto.
    + destruct (String.eqb_spec k k'); [congruence|reflexivity].
    + destruct (String.eqb_spec k k'); [congruence|reflexivity].
Qed.

Lemma prop_get_set_same k v o : prop_get k (prop_set k v o) = Some v.
Proof.
  unfold prop_set. destruct (has_own k o) eqn:E.
  - now apply prop_get_replace.
  - destruct (array_index k) as [n|] eqn:Ek.
    + now apply prop_get_insert_index_same.
    + now apply prop_get_app_new.
Qed.

Lemma prop_get_set_other k k' v o :
  k' <> k -> prop_get k' (prop_set k v o) = prop_get k' o.
Proof.
  intros Hne. unfold prop_set. destruct (has_own k o).
  - now apply prop_get_replace_other.
  - destruct (array_index k) as [n|].
    + now apply prop_get_insert_index_other.
    + now apply prop_get_app_other.
Qed.

Lemma prop_get_has_own k o :
  has_own k o = true <-> exists v, prop_get k o = Some v.
Proof.
  unfold has_own. induction o as [|[k1 v1] o IH]; cbn [existsb prop_get fst].
  - split; [discriminate|intros [v H]; discriminate].
  - destruct (k1 =? k); cbn [orb]; [|exact IH].
    split; [eauto|reflexivity].
Qed.

Lemma prop_replace_same k v o :
  prop_get k o = Some v -> prop_replace k v o = o.
Proof.
  induction o as [|[k1 v1] o IH]; cbn [prop_get prop_replace]; [reflexivity|].
  destruct (k1 =? k) eqn:E.
  - now intros [= ->].
  - intros H. now rewrite IH.
Qed.

Lemma prop_set_same k v o : prop_get k o = Some v -> prop_set k v o = o.
Proof.
  intros H. unfold prop_set.
  assert (E : has_own k o = true) by (apply prop_get_has_own; eauto).
  rewrite E. now apply prop_replace_same.
Qed.
End SetFacts.

(* ================================================================= *)
(** * What [toJSON] keeps *)

Lemma transient_is_name k : transient k = true -> array_index k = None.
Proof.
  unfold transient. intros H. apply orb_true_iff in H. destruct H as [H|H].
  - apply String.eqb_eq in H. now subst.
  - destruct k as [|c k]; [discriminate|]. cbn in H.
    apply Ascii.eqb_eq in H. subst c. unfold array_index. cbn.
    now destruct (NilEmpty.uint_of_string k).
Qed.

Lemma StronglySorted_middle {A : Type} (R : A -> A -> Prop) l1 x l2 :
  StronglySorted R (l1 ++ x :: l2) -> Forall (fun y => R y x) l1.
Proof.
  induction l1 as [|a l1 IH]; cbn [List.app]; [constructor|].
  intros H. apply StronglySorted_inv in H. destruct H as [H1 H2].
  apply Forall_app in H2. destruct H2 as [_ H2]. inversion H2; subst.
  constructor; auto.
Qed.

Lemma toJSON_each_user (obj : object) kv :
  user_field kv = true ->
  toJSON_each obj kv = prop_set (fst kv) (snd kv) obj.
Proof.
  unfold user_field, transient, toJSON_each. cbn zeta.
  rewrite negb_true_iff, orb_false_iff. now intros [-> ->].
Qed.

Lemma toJSON_fold_filter (r p : object) :
  well_formed (p ++ r) ->
  fold_left toJSON_each r (filter user_field p) = filter user_field (p ++ r).
Proof.
  revert p. induction r as [|[k v] r IH]; intros p Hwf; cbn [fold_left].
  - now rewrite List.app_nil_r.
  - replace (p ++ (k, v) :: r) with ((p ++ [(k, v)]) ++ r) in *
      by now rewrite <- List.app_assoc.
    rewrite <- IH by exact Hwf. f_equal.
    rewrite filter_app. cbn [filter].
    destruct (user_field (k, v)) eqn:E.
    + rewrite toJSON_each_user by exact E. cbn [fst snd].
      apply NodeFacts.prop_set_appendable, appendable_spec.
      unfold well_formed in Hwf. rewrite <- List.app_assoc, keys_app in Hwf.
      apply StronglySorted_middle in Hwf.
      apply Forall_forall. intros x Hx. rewrite Forall_forall in Hwf.
      apply Hwf. unfold Object_keys in *. apply in_map_iff in Hx.
      destruct Hx as [kv [<- Hin]]. apply filter_In in Hin. apply in_map. tauto.
    + rewrite List.app_nil_r. apply toJSON_each_transient.
      unfold user_field in E. now apply negb_false_iff in E.
Qed.

Lemma toJSON_filter (this : object) :
  well_formed this -> toJSON this = filter user_field this.
Proof. intros H. apply (toJSON_fold_filter this []). exact H. Qed.

Lemma toJSON_fold_keys_In (this acc : object) k :
  In k (Object_keys (fold_left toJSON_each this acc)) <->
  In k (Object_keys acc) \/ (In k (Object_keys this) /\ transient k = false).
Proof.
  revert acc. induction this as [|[k1 v1] this IH]; intros acc; cbn [fold_left].
  - cbn. tauto.
  - rewrite IH. cbn [Object_keys map fst In]. fold (Object_keys this).
    destruct (transient k1) eqn:E.
    + rewrite toJSON_each_transient by exact E.
      split; [tauto|]. intros [H|[[->|H] Ht]]; auto. congruence.
    + rewrite toJSON_each_user by (unfold user_field; cbn; now rewrite E).
      cbn [fst snd]. rewrite keys_prop_set_In.
      split; [intros [[->|H]|H]; auto; tauto|].
      intros [H|[[->|H] Ht]]; auto.
Qed.

Lemma toJSON_fold_well_formed (this acc : object) :
  well_formed acc -> well_formed (fold_left toJSON_each this acc).
Proof.
  revert acc. induction this as [|kv this IH]; intros acc Hacc; [exact Hacc|].
  cbn [fold_left]. apply IH. unfold toJSON_each. cbn zeta.
  destruct (fst kv =? "isNew"); [exact Hacc|].
  destruct (first_is_underscore (fst kv)); [exact Hacc|].
  now apply prop_set_well_formed.
Qed.

Lemma toJSON_well_formed (this : object) : well_formed (toJSON this).
Proof. apply toJSON_fold_well_formed. constructor. Qed.

Lemma filter_all {A : Type} (f : A -> bool) l :
  Forall (fun x => f x = true) l -> filter f l = l.
Proof.
  induction 1 as [|x l Hx Hl IH]; cbn [filter]; [reflexivity|].
  now rewrite Hx, IH.
Qed.

(** X1. Applying [toJSON] to what [toJSON] returned gives the same object:
    the result holds no key that a second pass would drop or move. *)
Theorem toJSON_idempotent (this : object) : toJSON (toJSON this) = toJSON this.
Proof.
  rewrite (toJSON_filter (toJSON this)) by apply toJSON_well_formed.
  apply filter_all. apply Forall_forall. intros [k v] Hin.
  pose proof (toJSON_keys this) as H. rewrite Forall_forall in H.
  unfold user_field. cbn [fst]. rewrite (H k); [reflexivity|].
  unfold Object_keys. apply in_map_iff. now exists (k, v).
Qed.



(** filter and prop_set commute *)
Lemma filter_prop_replace k (v : jsval) (this : object) :
  user_field (k, v) = true ->
  filter user_field (prop_replace k v this) =
  prop_replace k v (filter user_field this).
Proof.
  intros Hk. induction this as [|[k1 v1] this IH]; [reflexivity|].
  cbn [prop_replace filter].
  destruct (String.eqb_spec k1 k) as [->|Hne].
  - cbn [filter]. unfold user_field in *. cbn [fst] in *. rewrite Hk.
    cbn [prop_replace]. now rewrite String.eqb_refl.
  - cbn [filter]. destruct (user_field (k1, v1)); [|exact IH].
    cbn [prop_replace]. destruct (String.eqb_spec k1 k); [congruence|].
    now rewrite IH.
Qed.

Lemma has_own_filter k (v : jsval) (this : object) :
  user_field (k, v) = true ->
  has_own k (filter user_field this) = has_own k this.
Proof.
  intros Hk. unfold has_own.
  induction this as [|[k1 v1] this IH]; [reflexivity|].
  cbn [filter existsb fst]. destruct (user_field (k1, v1)) eqn:E.
  - cbn [existsb fst]. now rewrite IH.
  - rewrite IH. destruct (String.eqb_spec k1 k) as [->|]; [|reflexivity].
    unfold user_field in *. cbn [fst] in *. congruence.
Qed.

Lemma user_field_index k (v : jsval) n :
  array_index k = Some n -> user_field (k, v) = true.
Proof.
  intros H. unfold user_field. cbn [fst].
  destruct (transient k) eqn:E; [|reflexivity].
  apply transient_is_name in E. congruence.
Qed.

Lemma well_formed_names_after (this : object) k1 (v1 : jsval) :
  well_formed ((k1, v1) :: this) -> array_index k1 = None ->
  Forall (fun kv => array_index (fst kv) = None) this.
Proof.
  unfold well_formed. cbn [Object_keys map fst]. intros H E.
  apply StronglySorted_inv in H. destruct H as [_ H].
  apply Forall_forall. intros kv Hin. rewrite Forall_forall in H.
  specialize (H (fst kv) (in_map fst _ _ Hin)).
  unfold key_before in H. rewrite E in H.
  now destruct (array_index (fst kv)).
Qed.

Lemma insert_index_names n k (v : jsval) (o : object) :
  Forall (fun kv => array_index (fst kv) = None) o ->
  insert_index n k v o = (k, v) :: o.
Proof.
  destruct o as [|[k1 v1] o]; [reflexivity|].
  intros H. inversion H; subst. cbn [insert_index]. cbn [fst] in *.
  now rewrite H2.
Qed.

Lemma filter_insert_index n k (v : jsval) (this : object) :
  well_formed this -> array_index k = Some n ->
  filter user_field (insert_index n k v this) =
  insert_index n k v (filter user_field this).
Proof.
  intros Hwf Hk. pose proof (user_field_index k v n Hk) as Hu.
  induction this as [|[k1 v1] this IH].
  - cbn. now rewrite Hu.
  - assert (Hwf' : well_formed this).
    { unfold well_formed in *. cbn [Object_keys map] in Hwf.
      now apply StronglySorted_inv in Hwf. }
    cbn [insert_index]. destruct (array_index k1) as [m|] eqn:E1.
    + pose proof (user_field_index k1 v1 m E1) as Hu1.
      destruct (m <? n)%N eqn:Elt.
      * cbn [filter]. rewrite Hu1. cbn [insert_index]. rewrite E1, Elt.
        now rewrite IH.
      * cbn [filter]. rewrite Hu, Hu1. cbn [insert_index].
        now rewrite E1, Elt.
    + assert (Hnames : Forall (fun kv => array_index (fst kv) = None)
                         (filter user_field ((k1, v1) :: this))).
      { pose proof (well_formed_names_after this k1 v1 Hwf E1) as Hn.
        apply Forall_forall. intros kv Hin. apply filter_In in Hin.
        destruct Hin as [[<-|Hin] _]; [exact E1|].
        rewrite Forall_forall in Hn. now apply Hn. }
      rewrite (insert_index_names _ _ _ _ Hnames).
      change (filter user_field ((k, v) :: (k1, v1) :: this))
        with (if user_field (k, v)
              then (k, v) :: filter user_field ((k1, v1) :: this)
              else filter user_field ((k1, v1) :: this)).
      now rewrite Hu.
Qed.

Lemma toJSON_prop_set_user k (v : jsval) (this : object) :
  well_formed this -> user_field (k, v) = true ->
  toJSON (prop_set k v this) = prop_set k v (toJSON this).
Proof.
  intros Hwf Hk.
  rewrite !toJSON_filter by (try apply prop_set_well_formed; exact Hwf).
  unfold prop_set. rewrite (has_own_filter k v) by exact Hk.
  destruct (has_own k this).
  - now apply filter_prop_replace.
  - destruct (array_index k) as [n|] eqn:Ek.
    + now apply filter_insert_index.
    + rewrite filter_app. cbn [filter]. now rewrite Hk.
Qed.

Lemma toJSON_prop_set_transient k (v : jsval) (this : object) :
  transient k = true -> toJSON (prop_set k v this) = toJSON this.
Proof.
  intros Hk. unfold toJSON, prop_set. destruct (has_own k this).
  - now apply fold_replace_transient.
  - rewrite (transient_is_name k Hk), fold_left_app. cbn [fold_left].
    now apply toJSON_each_transient.
Qed.

Lemma toJSON_define_all (props this : object) :
  well_formed this -> Forall (fun kv => user_field kv = true) props ->
  toJSON (define_all props this) = define_all props (toJSON this).
Proof.
  intros Hwf Hall. revert this Hwf.
  induction Hall as [|[k v] props Hk Hprops IH]; intros this Hwf; [reflexivity|].
  cbn [define_all fold_left fst snd]. unfold define_all in IH.
  rewrite IH by now apply prop_set_well_formed.
  now rewrite toJSON_prop_set_user.
Qed.

Section SessionFacts.
Context {platform : Platform}.

Lemma assign_all_ok (props : list (string * value)) (this : object) :
  forallb (fun kv => negb (getter_only (fst kv))) props = true ->
  assign_all props this = inl (define_all (map as_data props) this).
Proof.
  revert this. induction props as [|[k v] props IH]; intros this H; [reflexivity|].
  cbn [forallb fst] in H. apply andb_true_iff in H. destruct H as [H1 H2].
  cbn [assign_all]. unfold assign. apply negb_true_iff in H1. rewrite H1.
  now rewrite IH.
Qed.

Lemma assign_all_throws (props : list (string * value)) (this : object) :
  forallb (fun kv => negb (getter_only (fst kv))) props = false ->
  assign_all props this =
  inr (mk_exn TypeError "Cannot set property which has only a getter").
Proof.
  revert this. induction props as [|[k v] props IH]; intros this H;
    [discriminate|].
  cbn [forallb fst] in H. cbn [assign_all]. unfold assign.
  destruct (getter_only k); [reflexivity|]. cbn [negb andb] in H. auto.
Qed.

End SessionFacts.

Lemma data_props_as_data (m : list (string * value)) :
  data_props (map as_data m) = m.
Proof.
  unfold data_props.
  induction m as [|[k v] m IH]; [reflexivity|]. cbn. now rewrite IH.
Qed.

Lemma keys_as_data (m : list (string * value)) :
  Object_keys (map as_data m) = Object_keys m.
Proof. unfold Object_keys. rewrite map_map. reflexivity. Qed.

Lemma prop_get_define_all_other {A : Type} k (props o : list (string * A)) :
  ~ In k (Object_keys props) ->
  prop_get k (define_all props o) = prop_get k o.
Proof.
  revert o. induction props as [|[k1 v1] props IH]; intros o Hk; [reflexivity|].
  cbn [define_all fold_left fst snd]. unfold define_all in IH.
  rewrite IH by (intros H; apply Hk; now right).
  apply prop_get_set_other. intros ->. apply Hk. now left.
Qed.

Lemma prop_get_define_all_in {A : Type} k (props o : list (string * A)) :
  In k (Object_keys props) ->
  exists v, In (k, v) props /\ prop_get k (define_all props o) = Some v.
Proof.
  revert o. induction props as [|[k1 v1] props IH]; intros o Hk; [destruct Hk|].
  cbn [define_all fold_left fst snd]. unfold define_all in IH.
  destruct (in_dec string_dec k (Object_keys props)) as [Hin|Hnin].
  - destruct (IH (prop_set k1 v1 o) Hin) as [v [H1 H2]].
    exists v. split; [now right|exact H2].
  - destruct Hk as [Hk|Hk]; [|contradiction]. cbn [fst] in Hk. subst k1.
    exists v1. split; [now left|].
    fold (define_all props (prop_set k v1 o)).
    rewrite prop_get_define_all_other by exact Hnin.
    apply prop_get_set_same.
Qed.

Section SessionFacts.
Context {platform : Platform}.

Lemma Session_of_object (m : list (string * value)) :
  enumeration_order m = true ->
  forallb (fun kv => ordinary (fst kv)) m = true ->
  exists s,
    Session (Some (VObj m)) = inl s /\
    toJSON s = map as_data m /\
    data_props (toJSON s) = m /\
    prop_get "_ctx" s = Some Host /\
    prop_get "isNew" s = None.
Proof.
  intros Hord Hkeys.
  assert (Hg : forallb (fun kv => negb (getter_only (fst kv))) m = true).
  { apply forallb_forall. intros kv Hin. rewrite forallb_forall in Hkeys.
    specialize (Hkeys kv Hin). unfold ordinary in Hkeys.
    now apply andb_true_iff in Hkeys. }
  assert (Hu : Forall (fun kv => user_field kv = true) (map as_data m)).
  { apply Forall_forall. intros kv Hin. apply in_map_iff in Hin.
    destruct Hin as [kv' [<- Hin]]. rewrite forallb_forall in Hkeys.
    specialize (Hkeys kv' Hin). unfold ordinary in Hkeys.
    apply andb_true_iff in Hkeys. unfold user_field, as_data. cbn [fst].
    tauto. }
  assert (Hnot : forall k, transient k = true ->
                           ~ In k (Object_keys (map as_data m))).
  { intros k Hk Hin. rewrite Forall_forall in Hu. unfold Object_keys in Hin.
    apply in_map_iff in Hin. destruct Hin as [kv [<- Hin]].
    specialize (Hu kv Hin). unfold user_field in Hu. now rewrite Hk in Hu. }
  exists (define_all (map as_data m) [("_ctx", Host)]).
  assert (Ht : toJSON (define_all (map as_data m) [("_ctx", Host)])
               = map as_data m).
  { rewrite toJSON_define_all; [|repeat constructor|exact Hu].
    change (toJSON [("_ctx", Host)]) with (@nil (string * jsval)).
    apply (NodeFacts.define_all_enumerated _ []).
    apply enumeration_order_spec. apply enumeration_order_spec in Hord.
    unfold well_formed in *. now rewrite keys_as_data. }
  split; [|split; [exact Ht|split; [|split]]].
  - unfold Session. cbn [truthy negb]. now rewrite assign_all_ok.
  - rewrite Ht. apply data_props_as_data.
  - rewrite prop_get_define_all_other by now apply Hnot. reflexivity.
  - rewrite prop_get_define_all_other by now apply Hnot. reflexivity.
Qed.


(** X6. When the object a session is built from has a property named
    [_ctx], that property replaces the reference to the request context,
    and [save()] on the session throws a [TypeError] before it writes the
    cookie. *)
Theorem Session_ctx_overwritten (obj : value) (s : object)
    (ctx : context) (t : list event) :
  Session (Some obj) = inl s ->
  truthy obj = true ->
  In "_ctx" (Object_keys (for_in obj)) ->
  (exists d, prop_get "_ctx" s = Some (Data d)) /\
  exists e, save ctx s t = (t, inr e) /\ exn_class e = TypeError.
Proof.
  unfold Session. intros Hs Ht Hin. rewrite Ht in Hs. cbn [negb] in Hs.
  destruct (forallb (fun kv => negb (getter_only (fst kv))) (for_in obj)) eqn:E.
  - rewrite assign_all_ok in Hs by exact E. injection Hs as <-.
    destruct (prop_get_define_all_in "_ctx" (map as_data (for_in obj))
                (prop_set "_ctx" Host [])) as [v [Hv Hget]].
    { now rewrite keys_as_data. }
    apply in_map_iff in Hv. destruct Hv as [[k d] [Hkd _]].
    unfold as_data in Hkd. cbn [fst snd] in Hkd. injection Hkd as -> <-.
    split; [eauto|]. unfold save. rewrite Hget. eexists. split; reflexivity.
  - rewrite assign_all_throws in Hs by exact E. discriminate.
Qed.
End SessionFacts.

(** Session objects stay well formed *)
Lemma prop_get_filter_other {A : Type} k k' (o : list (string * A)) :
  prop_get k' (prop_delete k o) = if k' =? k then None else prop_get k' o.
Proof.
  unfold prop_delete. induction o as [|[k1 v1] o IH]; cbn [filter prop_get fst].
  - now destruct (k' =? k).
  - destruct (String.eqb_spec k1 k) as [->|Hne]; cbn [negb].
    + rewrite IH. rewrite (String.eqb_sym k k').
      destruct (k' =? k); reflexivity.
    + cbn [prop_get]. destruct (String.eqb_spec k1 k') as [->|]; [|exact IH].
      destruct (String.eqb_spec k' k); [congruence|reflexivity].
Qed.

Lemma prop_get_toJSON (this : object) k :
  well_formed this ->
  prop_get k (toJSON this) = if transient k then None else prop_get k this.
Proof.
  intros Hwf. rewrite toJSON_filter by exact Hwf. clear Hwf.
  induction this as [|[k1 v1] this IH]; cbn [filter prop_get].
  - now destruct (transient k).
  - unfold user_field at 1. cbn [fst].
    destruct (String.eqb_spec k1 k) as [->|Hne].
    + destruct (transient k) eqn:E; cbn [negb]; [exact IH|].
      cbn [prop_get]. now rewrite String.eqb_refl.
    + destruct (negb (transient k1)); [|exact IH].
      cbn [prop_get]. destruct (String.eqb_spec k1 k); [congruence|exact IH].
Qed.

Section HandlerFacts.
Context {platform : Platform}.


End HandlerFacts.

(* ================================================================= *)
(** * Every request *)

Lemma Session_cases {platform : Platform} (obj : value) :
  Session (Some obj) =
  if truthy obj then
    if forallb (fun kv => negb (getter_only (fst kv))) (for_in obj)
    then inl (define_all (map as_data (for_in obj)) [("_ctx", Host)])
    else inr (mk_exn TypeError "Cannot set property which has only a getter")
  else inl fresh_session.
Proof.
  unfold Session. destruct (truthy obj); cbn [negb]; [|reflexivity].
  destruct (forallb _ (for_in obj)) eqn:E.
  - now rewrite assign_all_ok.
  - now rewrite assign_all_throws.
Qed.

Lemma existsb_of_forallb {A : Type} (p : A -> bool) l :
  forallb (fun x => negb (p x)) l = false <-> existsb p l = true.
Proof.
  induction l as [|x l IH]; cbn [forallb existsb]; [split; discriminate|].
  destruct (p x); cbn [negb andb orb]; [split; reflexivity|exact IH].
Qed.

Lemma downstream_reads_only {platform : Platform} next sess :
  forallb reads_only next = true -> downstream next sess = (sess, None).
Proof.
  induction next as [|a next IH]; [reflexivity|].
  cbn [forallb]. intros H. apply andb_true_iff in H. destruct H as [Ha H].
  destruct a; try discriminate; cbn [downstream step]; auto.
Qed.

Section RequestFacts.
Context {platform : Platform}.
Variable cfg : config.
Variable w : world.

(** The calls of the finalize phase. *)
Lemma finalize_calls this sid json sess :
  let t := fst (finalize cfg w this sid json sess []) in
  t = [] \/
  t = [CookiesSet (key cfg) (Some "") (cookieOption cfg); ClientDel sid] \/
  exists record,
    t = [CookiesSet (ctx_sessionKey this) (ctx_sessionId this)
           (ctx_cookieOption this);
         ClientSet sid record].
Proof.
  run_M. destruct sess as [| |s]; cbn [fst]; auto.
  - destruct (w_del w sid); cbn; auto.
  - destruct (negb _ && _); auto.
    destruct (changed s json) as [[] s']; auto.
    destruct (prop_get "_ctx" s') as [[|d]|]; auto.
    destruct (prop_get "_json" s') as [j|];
      [destruct (truthy_js j)|]; destruct (w_set w sid _); cbn; eauto.
Qed.

Lemma finalize_only_writes this sid json sess :
  writes (fst (finalize cfg w this sid json sess [])) =
  fst (finalize cfg w this sid json sess []).
Proof.
  destruct (finalize_calls this sid json sess) as [H|[H|[r H]]];
    rewrite H; reflexivity.
Qed.

Lemma middleware_trace next t l :
  load cfg w [] = (t, inl l) ->
  fst (middleware cfg w next []) =
  t ++ fst (finalize cfg w (l_this l) (l_sid l) (l_json l)
              (fst (downstream next (l_sess l))) []).
Proof.
  intros Hl. rewrite middleware_eq, Hl.
  destruct (downstream next (l_sess l)) as [sess err]. cbn [fst].
  rewrite finalize_frame. destruct (snd _) as [u|e]; reflexivity.
Qed.

Lemma middleware_writes next t l :
  load cfg w [] = (t, inl l) ->
  writes (fst (middleware cfg w next [])) =
  fst (finalize cfg w (l_this l) (l_sid l) (l_json l)
         (fst (downstream next (l_sess l))) []).
Proof.
  intros Hl. rewrite (middleware_trace next t l Hl).
  unfold writes. rewrite filter_app.
  pose proof (load_writes_nothing cfg w) as Hw. rewrite Hl in Hw.
  unfold writes in Hw. cbn [fst] in Hw. rewrite Hw.
  apply finalize_only_writes.
Qed.

(** X9. Whatever the request, the writes it makes are none, or the
    clearing of the cookie followed by one store delete, or the setting of
    the cookie to an identifier followed by one store set under that
    identifier: never two store writes, and never a store write that the
    cookie write does not precede. *)
Theorem at_most_one_store_write next :
  let ws := writes (fst (middleware cfg w next [])) in
  ws = [] \/
  (exists sid,
     ws = [CookiesSet (key cfg) (Some "") (cookieOption cfg); ClientDel sid]) \/
  (exists sid record,
     ws = [CookiesSet (key cfg) (Some sid) (cookieOption cfg);
           ClientSet sid record]).
Proof.
  cbv zeta. destruct (load cfg w []) as [t [l|e]] eqn:Hl.
  - rewrite (middleware_writes next t l Hl).
    destruct (load_identifier cfg w t l Hl) as (Hid & Hkey & Hopt & _).
    destruct (finalize_calls (l_this l) (l_sid l) (l_json l)
                (fst (downstream next (l_sess l)))) as [H|[H|[r H]]];
      rewrite H; eauto.
    rewrite Hid, Hkey, Hopt. eauto.
  - left. rewrite middleware_eq, Hl. cbn [fst].
    pose proof (load_writes_nothing cfg w) as Hw. now rewrite Hl in Hw.
Qed.

Lemma load_calls_no_write ev :
  is_write ev = true -> ~ In ev (fst (load cfg w [])).
Proof.
  intros Hev Hin. pose proof (load_writes_nothing cfg w) as Hw.
  unfold writes in Hw.
  assert (Hf : In ev (filter is_write (fst (load cfg w []))))
    by (apply filter_In; auto).
  rewrite Hw in Hf. destruct Hf.
Qed.

Lemma finalize_store_failure this sid json sess e :
  (forall sid' record,
     In (ClientSet sid' record) (fst (finalize cfg w this sid json sess [])) ->
     w_set w sid' record = Some e ->
     snd (finalize cfg w this sid json sess []) = inr e) /\
  (forall sid',
     In (ClientDel sid') (fst (finalize cfg w this sid json sess [])) ->
     w_del w sid' = Some e ->
     snd (finalize cfg w this sid json sess []) = inr e).
Proof.
  run_M. destruct sess as [| |s]; cbn [fst snd].
  - split; intros; contradiction.
  - destruct (w_del w sid) eqn:Ed; cbn; split; intros;
      repeat match goal with
        | H : _ \/ _ |- _ => destruct H
        | H : False |- _ => destruct H
        | H : ClientDel _ = ClientDel _ |- _ => injection H as <-
        | H : _ = _ |- _ => discriminate H
        end; congruence.
  - destruct (negb _ && _); [split; intros; contradiction|].
    destruct (changed s json) as [[] s']; [|split; intros; contradiction].
    destruct (prop_get "_ctx" s') as [[|d]|];
      try (split; intros; contradiction).
    destruct (prop_get "_json" s') as [j|]; [destruct (truthy_js j)|];
      (destruct (w_set w sid _) eqn:Es; cbn; split; intros;
       repeat match goal with
         | H : _ \/ _ |- _ => destruct H
         | H : False |- _ => destruct H
         | H : ClientSet _ _ = ClientSet _ _ |- _ => injection H as <- <-
         | H : _ = _ |- _ => discriminate H
         end; congruence).
Qed.

(** X10. When the store refuses the set or the delete that the
    middleware calls, the middleware raises the store's error, also when
    the handler had raised one of its own. *)
Theorem store_failure_reaches_caller next e :
  (forall sid record,
     In (ClientSet sid record) (fst (middleware cfg w next [])) ->
     w_set w sid record = Some e ->
     snd (middleware cfg w next []) = inr e) /\
  (forall sid,
     In (ClientDel sid) (fst (middleware cfg w next [])) ->
     w_del w sid = Some e ->
     snd (middleware cfg w next []) = inr e).
Proof.
  pose proof load_calls_no_write as Hload.
  rewrite middleware_eq.
  destruct (load cfg w []) as [t [l|e0]] eqn:Hl; cbn [fst] in Hload.
  - destruct (downstream next (l_sess l)) as [sess err].
    rewrite finalize_frame.
    destruct (finalize_store_failure (l_this l) (l_sid l) (l_json l) sess e)
      as [Hset Hdel].
    destruct (finalize cfg w (l_this l) (l_sid l) (l_json l) sess [])
      as [t' r]; cbn [fst snd] in *.
    split; intros; cbn [fst snd] in *.
    + assert (Hr : r = inr e).
      { destruct r as [u|e']; cbn [fst] in H; apply in_app_iff in H;
          (destruct H as [H|H]; [now apply Hload in H|eauto]). }
      now rewrite Hr.
    + assert (Hr : r = inr e).
      { destruct r as [u|e']; cbn [fst] in H; apply in_app_iff in H;
          (destruct H as [H|H]; [now apply Hload in H|eauto]). }
      now rewrite Hr.
  - split; intros; cbn [fst] in *; now apply Hload in H.
Qed.
End RequestFacts.

Section RequestFacts2.
Context {platform : Platform}.
Variable cfg : config.
Variable w : world.

(** X11. Without a session cookie, or with an empty one, the load phase
    only asks for a new identifier and starts a new session; the request
    never reads the store. *)
Theorem no_cookie_no_store_read next :
  truthy_str (w_cookie w) = false ->
  load cfg w [] =
    ([CookiesGet (key cfg) (cookieOption cfg); Uid 24],
     inl {| l_this := {| ctx_cookieOption := cookieOption cfg;
                         ctx_sessionKey := key cfg;
                         ctx_sessionId := Some (w_uid w) |};
            l_sid := w_uid w; l_json := None; l_sess := SObj fresh_session |})
  /\ forall sid, ~ In (ClientGet sid) (fst (middleware cfg w next [])).
Proof.
  intros Hc.
  assert (Hl : load cfg w [] =
    ([CookiesGet (key cfg) (cookieOption cfg); Uid 24],
     inl {| l_this := {| ctx_cookieOption := cookieOption cfg;
                         ctx_sessionKey := key cfg;
                         ctx_sessionId := Some (w_uid w) |};
            l_sid := w_uid w; l_json := None;
            l_sess := SObj fresh_session |})).
  { run_M. destruct (w_cookie w) as [sid|]; [|reflexivity].
    cbn [truthy_str] in Hc. rewrite Hc. reflexivity. }
  split; [exact Hl|]. intros sid Hin.
  rewrite (middleware_trace cfg w next _ _ Hl) in Hin.
  apply in_app_iff in Hin. destruct Hin as [Hin|Hin].
  - cbn in Hin. intuition discriminate.
  - match type of Hin with
    | In _ (fst (finalize ?c ?w ?a ?b ?j ?s [])) =>
        destruct (finalize_calls c w a b j s) as [H|[H|[r H]]]
    end; rewrite H in Hin; cbn in Hin; intuition discriminate.
Qed.

Lemma finalize_json_falsy this sid json sess :
  truthy_str json = false ->
  finalize cfg w this sid json sess = finalize cfg w this sid None sess.
Proof.
  intros Hj. unfold finalize, changed. destruct sess as [| |s]; try reflexivity.
  rewrite Hj. reflexivity.
Qed.

End RequestFacts2.

(** X13. A store that answers the read with null or with the empty string
    is treated alike: the request goes as against a store without record. *)
Theorem empty_record_is_absent {platform : Platform} cfg w next r :
  w_get w (the (w_cookie w)) = inl r ->
  truthy_str r = false ->
  middleware cfg w next [] = middleware cfg (store_absent w) next [].
Proof.
  intros Hg Hr. rewrite !middleware_eq.
  assert (Hl : load cfg w [] =
               (fst (load cfg (store_absent w) []),
                match snd (load cfg (store_absent w) []) with
                | inl l => inl {| l_this := l_this l; l_sid := l_sid l;
                                  l_json := if truthy_str (w_cookie w)
                                            then r else None;
                                  l_sess := l_sess l |}
                | inr e => inr e
                end)).
  { run_M. cbn [w_cookie w_get w_uid store_absent].
    destruct (w_cookie w) as [sid|]; [|reflexivity].
    cbn [the] in Hg. destruct (negb (sid =? "")); [|reflexivity].
    rewrite Hg. destruct r as [j|]; [|reflexivity].
    cbn [truthy_str] in Hr. rewrite Hr. reflexivity. }
  rewrite Hl.
  destruct (load cfg (store_absent w) []) as [t [l|e]] eqn:Hl'; [|reflexivity].
  cbn [fst snd l_this l_sid l_json l_sess].
  assert (Hj : l_json l = None).
  { revert Hl'. run_M. cbn [w_cookie w_get w_uid store_absent].
    destruct (w_cookie w) as [sid|];
      [destruct (negb (sid =? ""))|]; now intros [= <- <-]. }
  rewrite Hj.
  destruct (downstream next (l_sess l)) as [sess err].
  rewrite (finalize_json_falsy cfg w _ _ (if truthy_str (w_cookie w) then r else None))
    by (destruct (truthy_str (w_cookie w)); [exact Hr|reflexivity]).
  reflexivity.
Qed.

(* ================================================================= *)
(** * The options *)

Lemma force_get_same name c :
  prop_get name (force_unless_false name c) = Some (VBool (flag name c)).
Proof.
  unfold force_unless_false, flag.
  destruct (prop_get name c) as [[|[]| | | |]|] eqn:E;
    rewrite ?prop_get_set_same; auto.
Qed.

Lemma force_get_other name k c :
  k <> name -> prop_get k (force_unless_false name c) = prop_get k c.
Proof.
  intros H. unfold force_unless_false.
  destruct (prop_get name c) as [[|[]| | | |]|];
    rewrite ?prop_get_set_other; auto.
Qed.

Lemma force_settled name c b :
  prop_get name c = Some (VBool b) -> force_unless_false name c = c.
Proof.
  intros H. unfold force_unless_false. rewrite H.
  destruct b; [|reflexivity]. now apply prop_set_same.
Qed.

Lemma default_get_same name d o :
  prop_get name (default_unless_truthy name d o) =
  Some (or_value (prop_get name o) d).
Proof.
  unfold default_unless_truthy, or_value.
  destruct (prop_get name o) as [v|] eqn:E; [destruct (truthy v)|];
    rewrite ?prop_get_set_same; auto.
Qed.

Lemma default_get_other name k d o :
  k <> name -> prop_get k (default_unless_truthy name d o) = prop_get k o.
Proof.
  intros H. unfold default_unless_truthy.
  destruct (prop_get name o) as [v|]; [destruct (truthy v)|];
    rewrite ?prop_get_set_other; auto.
Qed.

Lemma default_settled name d o v :
  prop_get name o = Some v -> truthy v = true \/ v = d ->
  default_unless_truthy name d o = o.
Proof.
  intros H Hv. unfold default_unless_truthy. rewrite H.
  destruct (truthy v) eqn:E; [reflexivity|].
  destruct Hv as [Hv| ->]; [discriminate|]. now apply prop_set_same.
Qed.

Lemma or_value_settled x d :
  truthy (or_value x d) = true \/ or_value x d = d.
Proof.
  unfold or_value. destruct x as [v|]; [|now right].
  destruct (truthy v) eqn:E; auto.
Qed.

Lemma cookie_option_get (opts : option options) (k : string) :
  prop_get k (set_cookieOption (exports opts)) =
  if is_flag k then Some (VBool (flag k (given_cookie opts)))
  else prop_get k (given_cookie opts).
Proof.
  unfold exports, is_flag. cbn [set_cookieOption]. fold (given_cookie opts).
  set (c := given_cookie opts).
  destruct (String.eqb_spec k "signed") as [->|H3].
  - rewrite force_get_same. cbn [orb]. unfold flag.
    now rewrite !force_get_other by discriminate.
  - rewrite force_get_other by exact H3.
    destruct (String.eqb_spec k "httpOnly") as [->|H2].
    + rewrite force_get_same. cbn [orb]. unfold flag.
      now rewrite !force_get_other by discriminate.
    + rewrite force_get_other by exact H2.
      destruct (String.eqb_spec k "overwrite") as [->|H1].
      * now rewrite force_get_same.
      * now rewrite force_get_other by exact H1.
Qed.

(** X14. After [module.exports(opts)] each of [overwrite], [httpOnly] and
    [signed] is a boolean in the cookie options, false only where the
    caller had given the boolean false (not 0, null or the empty string),
    and every other cookie option is as the caller gave it. *)
Theorem exports_cookie_flags (opts : option options) (k : string) :
  prop_get k (set_cookieOption (exports opts)) =
  if is_flag k then Some (VBool (flag k (given_cookie opts)))
  else prop_get k (given_cookie opts).
Proof. exact (cookie_option_get opts k). Qed.

(** X15. [redis.createClient] is called with a port, a host and options
    that are all truthy: the caller's value where it is truthy, and 6379,
    127.0.0.1 and the empty object where it is missing or falsy. *)
Theorem exports_client_arguments (opts : option options) :
  set_createClient (exports opts) =
    (Some (or_value (prop_get "port" (given_store opts)) (VNum 6379)),
     Some (or_value (prop_get "host" (given_store opts)) (VStr "127.0.0.1")),
     Some (or_value (prop_get "options" (given_store opts)) (VObj []))) /\
  (let '(port, host, options) := set_createClient (exports opts) in
   exists p h o,
     port = Some p /\ host = Some h /\ options = Some o /\
     truthy p = true /\ truthy h = true /\ truthy o = true).
Proof.
  assert (H : set_createClient (exports opts) =
    (Some (or_value (prop_get "port" (given_store opts)) (VNum 6379)),
     Some (or_value (prop_get "host" (given_store opts)) (VStr "127.0.0.1")),
     Some (or_value (prop_get "options" (given_store opts)) (VObj [])))).
  { unfold exports. cbn [set_createClient]. fold (given_store opts).
    set (o := given_store opts).
    repeat f_equal;
      repeat (rewrite default_get_other by discriminate);
      rewrite default_get_same;
      repeat (rewrite default_get_other by discriminate); reflexivity. }
  split; [exact H|]. rewrite H. do 3 eexists.
  repeat (split; [reflexivity|]).
  repeat split; unfold or_value;
    match goal with
    | |- context [prop_get ?n ?o] =>
        destruct (prop_get n o) as [v|]; [destruct (truthy v) eqn:E|]; auto
    end.
Qed.

(** X16. Calling [module.exports] again with the key and the option
    objects that a first call left behind changes nothing: the same key,
    the same option objects, the same client arguments. *)
Theorem exports_idempotent (opts : option options) :
  let s := exports opts in
  exports (Some {| opts_key := Some (set_key s);
                   opts_cookie := Some (set_cookieOption s);
                   opts_store := Some (set_redisOption s) |}) = s.
Proof.
  cbv zeta. unfold exports at 1.
  cbn [opts_key opts_cookie opts_store or_empty].
  assert (Hkey : (if truthy_str (Some (set_key (exports opts)))
                  then the (Some (set_key (exports opts)))
                  else "koa:sess") = set_key (exports opts)).
  { unfold exports. cbn [set_key the truthy_str].
    destruct opts as [o|]; [|reflexivity].
    destruct (opts_key o) as [k|]; cbn [truthy_str the]; [|reflexivity].
    destruct (negb (k =? "")) eqn:E; cbn [negb]; [now rewrite E|reflexivity]. }
  rewrite Hkey.
  assert (Hc : forall c, c = set_cookieOption (exports opts) ->
             force_unless_false "signed"
               (force_unless_false "httpOnly"
                  (force_unless_false "overwrite" c)) = c).
  { intros c ->.
    rewrite (force_settled "overwrite" _ (flag "overwrite" (given_cookie opts)))
      by (rewrite cookie_option_get; reflexivity).
    rewrite (force_settled "httpOnly" _ (flag "httpOnly" (given_cookie opts)))
      by (rewrite cookie_option_get; reflexivity).
    rewrite (force_settled "signed" _ (flag "signed" (given_cookie opts)))
      by (rewrite cookie_option_get; reflexivity).
    reflexivity. }
  rewrite (Hc _ eq_refl).
  assert (Hget : forall name d,
             In (name, d) [("port", VNum 6379); ("host", VStr "127.0.0.1");
                           ("options", VObj []); ("db", VNum 0);
                           ("ttl", VNull)] ->
             prop_get name (set_redisOption (exports opts)) =
             Some (or_value (prop_get name (given_store opts)) d)).
  { intros name d Hin. unfold exports. cbn [set_redisOption].
    fold (given_store opts). cbn [In] in Hin.
    repeat match goal with
      | H : _ \/ _ |- _ => destruct H
      | H : (_, _) = (_, _) |- _ => injection H as <- <-
      | H : False |- _ => destruct H
      end;
      repeat (rewrite default_get_other by discriminate);
      rewrite default_get_same;
      repeat (rewrite default_get_other by discriminate); reflexivity. }
  assert (Hr : forall r, r = set_redisOption (exports opts) ->
             default_unless_truthy "ttl" VNull
               (default_unless_truthy "db" (VNum 0)
                  (default_unless_truthy "options" (VObj [])
                     (default_unless_truthy "host" (VStr "127.0.0.1")
                        (default_unless_truthy "port" (VNum 6379) r)))) = r).
  { intros r ->.
    rewrite (default_settled "port" _ _ _ (Hget _ _ (or_introl eq_refl)))
      by apply or_value_settled.
    rewrite (default_settled "host" _ _ _
               (Hget _ _ (or_intror (or_introl eq_refl))))
      by apply or_value_settled.
    rewrite (default_settled "options" _ _ _
               (Hget _ _ (or_intror (or_intror (or_introl eq_refl)))))
      by apply or_value_settled.
    rewrite (default_settled "db" _ _ _
               (Hget _ _ (or_intror (or_intror (or_intror (or_introl eq_refl))))))
      by apply or_value_settled.
    rewrite (default_settled "ttl" _ _ _
               (Hget _ _ (or_intror (or_intror (or_intror
                            (or_intror (or_introl eq_refl)))))))
      by apply or_value_settled.
    reflexivity. }
  rewrite (Hr _ eq_refl).
  destruct (exports opts) as [k c r cl] eqn:E. cbn [set_key set_cookieOption
    set_redisOption]. f_equal.
  assert (Hcl : set_createClient (exports opts) = cl) by now rewrite E.
  unfold exports in Hcl. cbn [set_createClient] in Hcl.
  assert (Hro : set_redisOption (exports opts) = r) by now rewrite E.
  unfold exports in Hro. cbn [set_redisOption] in Hro.
  now rewrite Hro in Hcl.
Qed.

Example exports_defaults : config_of (exports None) = default_config.
Proof. reflexivity. Qed.

(* ================================================================= *)
(** * Requests on Node *)

#[local] Existing Instance Node.platform.


(** A cookie whose record is gone: after the load phase every call uses the
    new identifier. *)
Lemma identifier_fixed_after_load_witness :
  exists t',
    fst (middleware default_config (request (Some "abc") (inl None))
           [SetField "user" (VNum 1)] []) =
    [CookiesGet "koa:sess" default_options; ClientGet "abc"; Uid 24] ++ t' /\
    Forall (uses_sid "p3Zk0sVq8LxY2mNc7TbR4hWd") t'.
Proof.
  exact (proj2 (proj2 (identifier_fixed_after_load default_config
                         (request (Some "abc") (inl None))
                         [SetField "user" (VNum 1)] _ _ eq_refl))).
Defined.

(** C2 as stated fails: the cookie carries [abc], the store has no record
    for it, and the save that follows is keyed by another identifier. *)
Lemma stale_cookie_identifier_replaced :
  ~ Forall (uses_sid "abc")
      (fst (middleware default_config (request (Some "abc") (inl None))
              [SetField "user" (VNum 1)] [])).
Proof.
  intros H. rewrite Forall_forall in H.
  specialize (H (ClientSet "p3Zk0sVq8LxY2mNc7TbR4hWd"
                   (Data (VStr "eyJ1c2VyIjoxfQ==")))).
  cbn in H. discriminate H. vm_compute. auto 10.
Qed.

(** C3, at the failing input. The store holds a record whose JSON text has a
    space after the colon; the handler does not touch the session; the
    middleware rewrites the cookie and the record all the same. *)
Theorem untouched_session_rewritten :
  middleware default_config (request (Some "abc") (inl (Some "eyJhIjogMX0=")))
    [] [] =
  ([CookiesGet "koa:sess" default_options; ClientGet "abc";
    CookiesSet "koa:sess" (Some "abc") default_options;
    ClientSet "abc" (Data (VStr "eyJhIjoxfQ=="))],
   inl tt).
Proof. vm_compute. reflexivity. Qed.



(** A record that is not JSON, and a record with a [length] property, which
    [Session] cannot assign. *)
Lemma malformed_record_policy_witness :
  load default_config (request (Some "abc") (inl (Some "not-valid-base64!!")))
    [] =
    ([CookiesGet "koa:sess" default_options; ClientGet "abc"],
     inl {| l_this := {| ctx_cookieOption := default_options;
                         ctx_sessionKey := "koa:sess";
                         ctx_sessionId := Some "abc" |};
            l_sid := "abc"; l_json := Some "not-valid-base64!!";
            l_sess := SObj fresh_session |}) /\
  middleware default_config (request (Some "abc") (inl (Some "eyJsZW5ndGgiOjF9")))
    [SetField "user" (VNum 1)] [] =
    ([CookiesGet "koa:sess" default_options; ClientGet "abc"],
     inr (mk_exn TypeError "Cannot set property which has only a getter")).
Proof.
  split.
  - exact (malformed_record_policy default_config
             (request (Some "abc") (inl (Some "not-valid-base64!!")))
             "abc" "not-valid-base64!!" Node.syntax_error []
             eq_refl eq_refl eq_refl eq_refl eq_refl).
  - exact (malformed_record_policy default_config
             (request (Some "abc") (inl (Some "eyJsZW5ndGgiOjF9")))
             "abc" "eyJsZW5ndGgiOjF9"
             (mk_exn TypeError "Cannot set property which has only a getter")
             [SetField "user" (VNum 1)]
             eq_refl eq_refl eq_refl eq_refl eq_refl).
Defined.

(** A store that is down on read. *)
Lemma load_failure_is_absent_witness :
  load default_config (request (Some "abc") (inr store_down)) [] =
    ([CookiesGet "koa:sess" default_options; ClientGet "abc"; Uid 24],
     inl {| l_this := {| ctx_cookieOption := default_options;
                         ctx_sessionKey := "koa:sess";
                         ctx_sessionId := Some "p3Zk0sVq8LxY2mNc7TbR4hWd" |};
            l_sid := "p3Zk0sVq8LxY2mNc7TbR4hWd"; l_json := None;
            l_sess := SObj fresh_session |}) /\
  middleware default_config (request (Some "abc") (inr store_down))
    [SetField "user" (VNum 1)] [] =
  middleware default_config (store_absent (request (Some "abc") (inr store_down)))
    [SetField "user" (VNum 1)] [].
Proof.
  exact (load_failure_is_absent default_config
           (request (Some "abc") (inr store_down)) store_down
           [SetField "user" (VNum 1)] eq_refl eq_refl).
Defined.

(** The scenarios of the specification. A new session: no cookie, the
    handler sets [user] to 1; the record goes to the store under the new
    identifier and the cookie is set to it. *)
Example scenario_new_session :
  middleware default_config (request None (inl None))
    [SetField "user" (VNum 1)] [] =
  ([CookiesGet "koa:sess" default_options; Uid 24;
    CookiesSet "koa:sess" (Some "p3Zk0sVq8LxY2mNc7TbR4hWd") default_options;
    ClientSet "p3Zk0sVq8LxY2mNc7TbR4hWd" (Data (VStr "eyJ1c2VyIjoxfQ=="))],
   inl tt).
Proof. vm_compute. reflexivity. Qed.

(** A loaded session that the handler reads and leaves as it is. *)
Example scenario_no_change :
  middleware default_config
    (request (Some "abc") (inl (Some "eyJ1c2VyIjoxfQ==")))
    [GetSession] [] =
  ([CookiesGet "koa:sess" default_options; ClientGet "abc"], inl tt).
Proof. vm_compute. reflexivity. Qed.

(** A store that refuses the write: the failure reaches the caller. *)
Example scenario_store_write_failure :
  snd (middleware default_config
         {| w_cookie := None; w_get := fun _ => inl None;
            w_uid := "p3Zk0sVq8LxY2mNc7TbR4hWd";
            w_del := fun _ => Some store_down;
            w_set := fun _ _ => Some store_down |}
         [SetField "user" (VNum 1)] []) = inr store_down.
Proof. vm_compute. reflexivity. Qed.

(** A loaded session that the handler changes and then sets to null. *)
Lemma unset_session_is_deleted_witness :
  let w := request (Some "abc") (inl (Some "eyJ1c2VyIjoxfQ==")) in
  let next := [SetField "n" (VNum 2); SetSession VNull] in
  fst (middleware default_config w next []) =
    [CookiesGet "koa:sess" default_options; ClientGet "abc"] ++
    [CookiesSet "koa:sess" (Some "") default_options; ClientDel "abc"] /\
  writes (fst (middleware default_config w next [])) =
    [CookiesSet "koa:sess" (Some "") default_options; ClientDel "abc"].
Proof.
  exact (unset_session_is_deleted default_config
           (request (Some "abc") (inl (Some "eyJ1c2VyIjoxfQ==")))
           [SetField "n" (VNum 2); SetSession VNull] _ _ None
           eq_refl eq_refl).
Defined.




(* ================================================================= *)
(** * Records on Node *)

Module NodeRequests.
Import Node.
#[local] Existing Instance Node.platform.

Lemma to_base64_nonempty bytes : bytes <> [] -> to_base64 bytes <> [].
Proof.
  destruct bytes as [|a [|b [|c r]]]; [congruence|..]; discriminate.
Qed.

Lemma string_of_list_nonempty l :
  l <> [] -> (string_of_list_ascii l =? "") = false.
Proof. destruct l; [congruence|reflexivity]. Qed.

Lemma encode_truthy v : truthy_str (Some (encode v)) = true.
Proof.
  cbn [truthy_str]. apply negb_true_iff. unfold encode.
  cbn [base64_encode JSON_stringify platform].
  apply string_of_list_nonempty, to_base64_nonempty.
  unfold chars. rewrite list_ascii_of_string_of_list_ascii.
  destruct (NodeFacts.stringify_head v []) as (c & tl & E & _).
  rewrite List.app_nil_r in E. rewrite E. discriminate.
Qed.

Lemma decode_encode v : representable v = true -> decode (encode v) = inl v.
Proof.
  apply (decode_encode_inverse (fun v => representable v = true)).
  - exact NodeFacts.base64_decode_encode.
  - exact NodeFacts.JSON_parse_stringify.
Qed.

Lemma encode_injective a b :
  representable a = true -> representable b = true ->
  encode a = encode b -> a = b.
Proof.
  intros Ha Hb H. apply decode_encode in Ha, Hb. rewrite H in Ha.
  congruence.
Qed.

Lemma decode_error s e : decode s = inr e -> e = syntax_error.
Proof.
  unfold decode. cbn [JSON_parse platform]. unfold parse.
  destruct (parse_value _ _) as [[v rest]|]; [destruct (skip_ws rest)|];
    congruence.
Qed.
End NodeRequests.

Section OnNode.
#[local] Existing Instance Node.platform.
Variable cfg : config.
Variable w : world.




End OnNode.

Section SaveFacts.
#[local] Existing Instance Node.platform.
Variable cfg : config.
Variable w : world.

Lemma finalize_saves this sid json s :
  truthy_str json = true \/ populated s = true ->
  prop_get "_ctx" s = Some Host ->
  (truthy_str json = false -> prop_get "_json" s = None) ->
  json <> Some (encode_session s) ->
  fst (finalize cfg w this sid json (SObj s) []) =
    [CookiesSet (ctx_sessionKey this) (ctx_sessionId this)
       (ctx_cookieOption this);
     ClientSet sid (Data (VStr (encode_session s)))].
Proof.
  intros Hgo Hctx Hnone Hne.
  pose proof (NodeRequests.encode_truthy (VObj (data_props (toJSON s)))) as Ht.
  cbn [truthy_str] in Ht. fold (encode_session s) in Ht.
  unfold finalize, changed.
  destruct (truthy_str json) eqn:Hj; cbn [negb andb].
  - assert (Hs : strict_eq (encode_session s) json = false).
    { destruct json as [j|]; [|reflexivity]. cbn [strict_eq].
      apply String.eqb_neq. congruence. }
    rewrite Hs. cbn [negb]. unfold save.
    rewrite prop_get_set_json, prop_get_set_json_other, Hctx by discriminate.
    cbn [truthy_js truthy]. rewrite Ht.
    run_M. destruct (w_set w sid _); reflexivity.
  - destruct Hgo as [Hgo|Hp]; [discriminate|].
    unfold populated in Hp. apply negb_true_iff in Hp. rewrite Hp.
    unfold save. rewrite (Hnone eq_refl), Hctx.
    run_M. destruct (w_set w sid _); reflexivity.
Qed.

Lemma Session_hidden_name (m : list (string * value)) k s :
  forallb (fun kv => ordinary (fst kv)) m = true ->
  transient k = true ->
  Session (Some (VObj m)) = inl s ->
  prop_get k s = prop_get k [("_ctx", Host)].
Proof.
  intros Hkeys Hk. rewrite Session_cases. cbn [truthy for_in].
  destruct (forallb (fun kv => negb (getter_only (fst kv))) m);
    [|discriminate]. intros E.
  assert (Es : s = define_all (map as_data m) [("_ctx", Host)]) by congruence.
  subst s. clear E.
  apply prop_get_define_all_other. intros Hin.
  unfold Object_keys in Hin. apply in_map_iff in Hin.
  destruct Hin as [kv [<- Hin]]. apply in_map_iff in Hin.
  destruct Hin as [kv' [<- Hin]]. rewrite forallb_forall in Hkeys.
  specialize (Hkeys kv' Hin). unfold ordinary in Hkeys.
  apply andb_true_iff in Hkeys. cbn [as_data fst] in Hk.
  rewrite Hk in Hkeys. destruct Hkeys; discriminate.
Qed.


End SaveFacts.

(* ================================================================= *)
(** * Instances of the further properties *)



(** A record that carries a [_ctx] field. *)
Lemma Session_ctx_overwritten_witness :
  let s := [("_ctx", Data (VNum 1)); ("user", Data (VStr "ann"))] in
  let ctx := {| ctx_cookieOption := default_options;
                ctx_sessionKey := "koa:sess";
                ctx_sessionId := Some "abc" |} in
  (exists d, prop_get "_ctx" s = Some (Data d)) /\
  exists e, save ctx s [] = ([], inr e) /\ exn_class e = TypeError.
Proof.
  intros s ctx.
  refine (Session_ctx_overwritten
            (VObj [("_ctx", VNum 1); ("user", VStr "ann")]) s ctx []
            eq_refl eq_refl _).
  cbn. auto.
Defined.


(** A store that refuses the write, and a handler that raises. *)
Lemma store_failure_reaches_caller_witness :
  let w := {| w_cookie := None; w_get := fun _ => inl None;
              w_uid := "p3Zk0sVq8LxY2mNc7TbR4hWd";
              w_del := fun _ => Some store_down;
              w_set := fun _ _ => Some store_down |} in
  snd (middleware default_config w [SetField "user" (VNum 1); Throw boom] [])
  = inr store_down.
Proof.
  intros w.
  refine (proj1 (store_failure_reaches_caller default_config w
                   [SetField "user" (VNum 1); Throw boom] store_down)
            "p3Zk0sVq8LxY2mNc7TbR4hWd" (Data (VStr "eyJ1c2VyIjoxfQ=="))
            _ eq_refl).
  vm_compute. auto 10.
Defined.

(** An empty cookie value. *)
Lemma no_cookie_no_store_read_witness :
  let w := request (Some "") (inl (Some "eyJ1c2VyIjoxfQ==")) in
  load default_config w [] =
    ([CookiesGet "koa:sess" default_options; Uid 24],
     inl {| l_this := {| ctx_cookieOption := default_options;
                         ctx_sessionKey := "koa:sess";
                         ctx_sessionId := Some "p3Zk0sVq8LxY2mNc7TbR4hWd" |};
            l_sid := "p3Zk0sVq8LxY2mNc7TbR4hWd"; l_json := None;
            l_sess := SObj fresh_session |})
  /\ forall sid,
       ~ In (ClientGet sid)
           (fst (middleware default_config w [SetField "user" (VNum 1)] [])).
Proof.
  intros w.
  exact (no_cookie_no_store_read default_config w [SetField "user" (VNum 1)]
           eq_refl).
Defined.


(** A store that answers with the empty string. *)
Lemma empty_record_is_absent_witness :
  let w := request (Some "abc") (inl (Some "")) in
  middleware default_config w [SetField "user" (VNum 1)] [] =
  middleware default_config (store_absent w) [SetField "user" (VNum 1)] [].
Proof.
  intros w.
  exact (empty_record_is_absent default_config w [SetField "user" (VNum 1)]
           (Some "") eq_refl eq_refl).
Defined.






